(** * Quantum Studio v2: the virtual file system, the stream framer and the
    task lifecycle of [App.tsx]

    A shallow embedding of the file-system utilities ([traversePath],
    [applyFileOperations], [findNodeByPath]), of the streaming loop and the
    completion logic of [runAIGeneration], and of the task handlers
    ([handleApproveTask], [handleRejectTask], [handleApproveBlueprint],
    [handleAutoPilotTick]) of [App.tsx], with the types of [types.ts].

    Modelling conventions.
    - A JS string is a [string]: a sequence of one-byte code units.
    - The [children] object of a folder is a finite map from names to nodes
      ([gmap string _]); only own properties are modelled.
    - The working copy that [applyFileOperations] mutates in place is a tree
      without sharing, so a reference to a folder object is modelled by the
      address of that folder: the list of names leading to it from the root.
      A mutation through a reference is an update of the tree at that address.
    - A [throw] inside the [try] of [applyFileOperations] leaves the mutations
      made before it in place, so one operation yields the tree after it
      together with the exception it raised, if any. *)

From Stdlib Require Import ZArith Ascii String.
From stdpp Require Import base option list gmap strings.

Set Warnings "-register-all".

#[local] Arguments String.append !_ _ / : simpl nomatch.

Local Open Scope Z_scope.

(** ** Strings, as the JS code uses them *)
Module Str.

(** [s.split(sep)] for a one-character separator. *)
Fixpoint split (sep : ascii) (s : string) : list string :=
  match s with
  | EmptyString => [EmptyString]
  | String c s' =>
      if Ascii.eqb c sep then EmptyString :: split sep s'
      else match split sep s' with
           | [] => [String c EmptyString]
           | w :: ws => String c w :: ws
           end
  end.

(** Truthiness of a string: the empty string is the only falsy one. *)
Definition truthy (s : string) : bool :=
  match s with EmptyString => false | String _ _ => true end.

(** [s.startsWith(p)]. *)
Fixpoint starts_with (p s : string) : bool :=
  match p, s with
  | EmptyString, _ => true
  | String a p', String b s' => Ascii.eqb a b && starts_with p' s'
  | String _ _, EmptyString => false
  end.

(** [s.indexOf(sep)], counting from position [i] of the whole text: the first
    position at which [sep] starts, or [-1]. *)
Fixpoint indexOf_from (sep s : string) (i : Z) : Z :=
  if starts_with sep s then i
  else match s with
       | EmptyString => -1
       | String _ s' => indexOf_from sep s' (i + 1)
       end.

Definition indexOf (s sep : string) : Z := indexOf_from sep s 0.

(** [s.substring(0, n)] for [0 <= n]. *)
Fixpoint take (n : nat) (s : string) : string :=
  match n, s with
  | O, _ => EmptyString
  | S _, EmptyString => EmptyString
  | S n', String c s' => String c (take n' s')
  end.

(** [s.substring(n)] for [0 <= n]. *)
Fixpoint drop (n : nat) (s : string) : string :=
  match n, s with
  | O, _ => s
  | S _, EmptyString => EmptyString
  | S n', String _ s' => drop n' s'
  end.

Definition substring_to (s : string) (n : Z) : string := take (Z.to_nat n) s.
Definition substring_from (s : string) (n : Z) : string := drop (Z.to_nat n) s.

(** White space and line terminators of ECMAScript among one-byte code units:
    TAB, LF, VT, FF, CR, SP and NBSP. Both [trim] and the [\s] class of
    regular expressions use this set. *)
Definition is_space (c : ascii) : bool :=
  let n := nat_of_ascii c in
  ((9 <=? n)%nat && (n <=? 13)%nat) || (n =? 32)%nat || (n =? 160)%nat.

Fixpoint trimStart (s : string) : string :=
  match s with
  | EmptyString => EmptyString
  | String c s' => if is_space c then trimStart s' else s
  end.

(** [all_space s]: every character of [s] is white space. *)
Fixpoint all_space (s : string) : bool :=
  match s with
  | EmptyString => true
  | String c s' => is_space c && all_space s'
  end.

Fixpoint trimEnd (s : string) : string :=
  match s with
  | EmptyString => EmptyString
  | String c s' => if all_space s then EmptyString else String c (trimEnd s')
  end.

Definition trim (s : string) : string := trimEnd (trimStart s).

(** [s.endsWith(p)]. *)
Definition ends_with (p s : string) : bool :=
  (String.length p <=? String.length s)%nat
  && String.eqb (drop (String.length s - String.length p) s) p.

End Str.

(** ** The tree of [types.ts] *)

Inductive FileSystemNode : Type :=
  | FileNode (content : string)
  | FolderNode (children : gmap string FileSystemNode).

(** [FileSystemTree] is [FolderNode] in [types.ts]: the root is a folder. *)
Definition is_folder (n : FileSystemNode) : bool :=
  match n with FolderNode _ => true | FileNode _ => false end.

Inductive FileOperationType : Type :=
  | CREATE_FILE | UPDATE_FILE | DELETE_FILE | CREATE_FOLDER | DELETE_FOLDER
  | RENAME_FILE | RENAME_FOLDER.

Record FileOperation : Type := mkOp {
  operation : FileOperationType;
  path : string;
  content : option string;
  newPath : option string;
  description : option string
}.

(** ** File-system utilities *)
Module FS.

(** [path.split('/').filter(p => p)]. *)
Definition path_parts (path : string) : list string :=
  List.filter Str.truthy (Str.split "/"%char path).

(** The object reached from [current] by following the names of [addr]. *)
Fixpoint node_at (addr : list string) (current : FileSystemNode)
  : option FileSystemNode :=
  match addr with
  | [] => Some current
  | part :: rest =>
      match current with
      | FolderNode children =>
          match children !! part with
          | Some child => node_at rest child
          | None => None
          end
      | FileNode _ => None
      end
  end.

(** [findNodeByPath]. *)
Definition findNodeByPath (path : string) (tree : FileSystemNode)
  : option FileSystemNode :=
  node_at (path_parts path) tree.

(** A mutation [f] of the [children] object of the folder at address [addr]. *)
Fixpoint alter_children (f : gmap string FileSystemNode -> gmap string FileSystemNode)
    (addr : list string) (tree : FileSystemNode) : FileSystemNode :=
  match tree with
  | FileNode _ => tree
  | FolderNode children =>
      match addr with
      | [] => FolderNode (f children)
      | part :: rest =>
          match children !! part with
          | Some child => FolderNode (<[part := alter_children f rest child]> children)
          | None => tree
          end
      end
  end.

(** [parent.children[key] = v] and [delete parent.children[key]], for the
    folder [parent] at address [addr]. *)
Definition set_child (addr : list string) (key : string) (v : FileSystemNode)
    (tree : FileSystemNode) : FileSystemNode :=
  alter_children (fun children => <[key := v]> children) addr tree.

Definition delete_child (addr : list string) (key : string)
    (tree : FileSystemNode) : FileSystemNode :=
  alter_children (fun children => delete key children) addr tree.

(** The result record of [traversePath]; [parent] is the address of the
    parent folder, [None] for JS [null]. *)
Record Traversal : Type := mkTraversal {
  parent : option (list string);
  node : option FileSystemNode;
  key : string
}.

Definition not_found : Traversal :=
  {| parent := None; node := None; key := "" |}.

(** The [for] loop of [traversePath] over [parts[0 .. length-2]]: [current]
    is the object at address [cur]. It returns the tree, with the parents it
    created, and the address of the last [current], or [None] where the loop
    returns the null record. *)
Fixpoint walk (createParents : bool) (tree : FileSystemNode) (cur : list string)
    (parts : list string) : FileSystemNode * option (list string) :=
  match parts with
  | [] => (tree, Some cur)
  | part :: rest =>
      match node_at cur tree with
      | Some (FolderNode children) =>
          match children !! part with
          | Some _ => walk createParents tree (cur ++ [part]) rest
          | None =>
              if createParents
              then walk createParents (set_child cur part (FolderNode ∅) tree)
                        (cur ++ [part]) rest
              else (tree, None)
          end
      | _ => (tree, None)
      end
  end.

(** [traversePath]: the tree after the call and the record it returns. *)
Definition traversePath (tree : FileSystemNode) (path : string)
    (createParents : bool) : FileSystemNode * Traversal :=
  let parts := path_parts path in
  match parts with
  | [] => (tree, {| parent := None; node := Some tree; key := "" |})
  | _ :: _ =>
      match walk createParents tree [] (removelast parts) with
      | (tree', None) => (tree', not_found)
      | (tree', Some cur) =>
          let key := List.last parts "" in
          match node_at cur tree' with
          | Some (FolderNode children) =>
              (tree', {| parent := Some cur; node := children !! key; key := key |})
          | _ => (tree', not_found)
          end
      end
  end.

(** One iteration of the loop of [applyFileOperations]: the body of the
    [try], giving the working tree after it and the message of the [Error]
    it threw, if it threw. *)
Definition apply_operation (newTree : FileSystemNode) (op : FileOperation)
  : FileSystemNode * option string :=
  match operation op with
  | CREATE_FILE | UPDATE_FILE =>
      let '(t, r) := traversePath newTree (path op) true in
      match parent r with
      | Some p =>
          if Str.truthy (key r)
          then (set_child p (key r) (FileNode (default "" (content op))) t, None)
          else (t, Some ("Invalid path for CREATE/UPDATE: " +:+ path op))
      | None => (t, Some ("Invalid path for CREATE/UPDATE: " +:+ path op))
      end
  | CREATE_FOLDER =>
      let '(t, r) := traversePath newTree (path op) true in
      match parent r with
      | Some p =>
          if Str.truthy (key r) then
            match node_at (p ++ [key r]) t with
            | None => (set_child p (key r) (FolderNode ∅) t, None)
            | Some _ => (t, None)
            end
          else (t, Some ("Invalid path for CREATE_FOLDER: " +:+ path op))
      | None => (t, Some ("Invalid path for CREATE_FOLDER: " +:+ path op))
      end
  | DELETE_FILE | DELETE_FOLDER =>
      let '(t, r) := traversePath newTree (path op) false in
      match parent r, node r with
      | Some p, Some _ =>
          if Str.truthy (key r) then (delete_child p (key r) t, None) else (t, None)
      | _, _ => (t, None)
      end
  | RENAME_FILE | RENAME_FOLDER =>
      match newPath op with
      | None => (newTree, Some ("Missing newPath for RENAME on " +:+ path op))
      | Some np =>
          if negb (Str.truthy np)
          then (newTree, Some ("Missing newPath for RENAME on " +:+ path op))
          else
            let '(t, r) := traversePath newTree (path op) false in
            match parent r, node r with
            | Some oldParent, Some n =>
                if Str.truthy (key r) then
                  let t1 := delete_child oldParent (key r) t in
                  let '(t2, r2) := traversePath t1 np true in
                  match parent r2 with
                  | Some newParent =>
                      if Str.truthy (key r2)
                      then (set_child newParent (key r2) n t2, None)
                      else (t2, Some ("Invalid destination path for RENAME: " +:+ np))
                  | None => (t2, Some ("Invalid destination path for RENAME: " +:+ np))
                  end
                else (t, Some ("Source path not found for RENAME: " +:+ path op))
            | _, _ => (t, Some ("Source path not found for RENAME: " +:+ path op))
            end
      end
  end.

(** The loop of [applyFileOperations] over the working copy, with the
    failures that [console.error] reports, in order. *)
Fixpoint apply_loop (newTree : FileSystemNode) (operations : list FileOperation)
  : FileSystemNode * list (FileOperation * string) :=
  match operations with
  | [] => (newTree, [])
  | op :: rest =>
      let '(t, thrown) := apply_operation newTree op in
      let '(t', failures) := apply_loop t rest in
      (t', match thrown with
           | Some e => (op, e) :: failures
           | None => failures
           end)
  end.

(** [JSON.parse(JSON.stringify(tree))]: a copy that shares nothing with
    [tree]; as a value it is [tree] itself. *)
Definition deep_clone (tree : FileSystemNode) : FileSystemNode := tree.

(** [applyFileOperations], with the log of skipped operations. *)
Definition applyFileOperations_log (tree : FileSystemNode)
    (operations : list FileOperation)
  : FileSystemNode * list (FileOperation * string) :=
  apply_loop (deep_clone tree) operations.

(** [applyFileOperations]. *)
Definition applyFileOperations (tree : FileSystemNode)
    (operations : list FileOperation) : FileSystemNode :=
  fst (applyFileOperations_log tree operations).

End FS.

(** ** JSON values and the platform's [JSON.parse] *)

(** The outcome of an expression that may throw: its value, or the message of
    the [Error] thrown. *)
Inductive Completion (A : Type) : Type :=
  | Normal (value : A)
  | Throw (message : string).
Arguments Normal {A} value.
Arguments Throw {A} message.

(** A parsed JSON value. The model never computes with numbers, so a number
    carries an integer. *)
Inductive json : Type :=
  | JNull
  | JBool (b : bool)
  | JNumber (n : Z)
  | JString (s : string)
  | JArray (items : list json)
  | JObject (members : list (string * json)).

Module Js.

(** Truthiness of a JSON value, as [||] tests it. *)
Definition truthy (v : json) : bool :=
  match v with
  | JNull => false
  | JBool b => b
  | JNumber n => negb (n =? 0)
  | JString s => Str.truthy s
  | JArray _ | JObject _ => true
  end.

(** The member [name] of an object, whose [members] bind each name once. *)
Fixpoint member (name : string) (members : list (string * json)) : option json :=
  match members with
  | [] => None
  | (k, v) :: rest => if String.eqb k name then Some v else member name rest
  end.

(** [v.operations]: a [TypeError] on [null], the member of an object, and
    [undefined] ([None]) on every other value. *)
Definition get_operations (v : json) : Completion (option json) :=
  match v with
  | JNull => Throw "Cannot read properties of null (reading 'operations')"
  | JObject members => Normal (member "operations" members)
  | _ => Normal None
  end.

End Js.

(** ** Tasks and workspaces of [types.ts] *)

Inductive TaskStatus : Type :=
  | running | completed | error | pending_confirmation
  | pending_blueprint_approval.

Inductive TaskType : Type := user | autopilot.

#[global] Instance TaskStatus_eq_dec : EqDecision TaskStatus.
Proof. solve_decision. Defined.

#[global] Instance TaskType_eq_dec : EqDecision TaskType.
Proof. solve_decision. Defined.

(** [assistantResponse]: [content], [operations?], [blueprint?]. *)
Record AssistantResponse : Type := mkResponse {
  response_content : string;
  response_operations : option (list FileOperation);
  response_blueprint : option json
}.

(** [AITask]; the timestamp plays no role and is left out. The field [error]
    is [task_error] here, [type] is [task_type]. *)
Record AITask : Type := mkTask {
  id : string;
  userPrompt : string;
  status : TaskStatus;
  assistantResponse : option AssistantResponse;
  task_error : option string;
  task_type : option TaskType
}.

(** [Workspace]; its [id] and [name] are [ws_id] and [ws_name] here. *)
Record Workspace : Type := mkWorkspace {
  ws_id : string;
  ws_name : string;
  fileSystem : FileSystemNode;
  tasks : list AITask
}.

(** Of [WorkspaceUiState] only [isAutoPilotOn] matters to the scheduler. *)
Record WorkspaceUiState : Type := mkUi { isAutoPilotOn : bool }.

Definition DEFAULT_UI_STATE : WorkspaceUiState := {| isAutoPilotOn := false |}.

(** The React state of [App] that the handlers read and write. *)
Record AppState : Type := mkApp {
  workspaces : list Workspace;
  activeWorkspaceId : option string;
  workspaceUiStates : gmap string WorkspaceUiState
}.

(** ** The stream framer: the body of the [for await] loop *)
Module Framer.

Definition blueprintSeparator : string := "---JSON_BLUEPRINT---".
Definition opsSeparator : string := "---JSON_OPERATIONS---".

(** [separatorIdx], computed from the accumulated text. *)
Definition separatorIdx (fullResponseText : string) : Z :=
  let blueprintIdx := Str.indexOf fullResponseText blueprintSeparator in
  let opsIdx := Str.indexOf fullResponseText opsSeparator in
  if negb (blueprintIdx =? -1) then blueprintIdx else opsIdx.

(** [conversationalPart], computed from the accumulated text. *)
Definition conversationalPart (fullResponseText : string) : string :=
  let separatorIdx := separatorIdx fullResponseText in
  if negb (separatorIdx =? -1)
  then Str.substring_to fullResponseText separatorIdx
  else fullResponseText.

(** The two variables of the loop. *)
Record Buffer : Type := mkBuffer {
  fullResponseText : string;
  shown : string
}.

Definition initial : Buffer := {| fullResponseText := ""; shown := "" |}.

(** One iteration: append the chunk, classify the whole text again. *)
Definition feed (b : Buffer) (chunk : string) : Buffer :=
  let text := fullResponseText b +:+ chunk in
  {| fullResponseText := text; shown := conversationalPart text |}.

(** The loop over the chunks of a stream. *)
Definition feed_all (b : Buffer) (chunks : list string) : Buffer :=
  fold_left feed chunks b.

(** The payload kind that the completion logic selects. *)
Inductive PayloadKind : Type := Blueprint | Operations.

Definition payload_kind (fullResponseText : string) : option PayloadKind :=
  let blueprintIndex := Str.indexOf fullResponseText blueprintSeparator in
  let opsIndex := Str.indexOf fullResponseText opsSeparator in
  if negb (blueprintIndex =? -1) then Some Blueprint
  else if negb (opsIndex =? -1) then Some Operations
  else None.

End Framer.

(** ** The payload decoder *)
Module Decoder.

Definition fence : string := "```".

(** The first group of
    [/^```(?:json)?\s*([\s\S]*?)\s*```$/] on [t], [None] when the expression
    does not match. The expression matches when [t] opens with a fence and
    what follows the fence, an optional [json] tag and white space, closes
    with a fence; the lazy group then stops before the longest run of white
    space in front of the closing fence. *)
Definition fence_capture (t : string) : option string :=
  if Str.starts_with fence t then
    let r := Str.drop 3 t in
    let r := if Str.starts_with "json" r then Str.drop 4 r else r in
    let r := Str.trimStart r in
    if Str.ends_with fence r
    then Some (Str.trimEnd (Str.take (String.length r - 3) r))
    else None
  else None.

(** [jsonPartRaw.trim().match(...)?.[1] || jsonPartRaw.trim()]. *)
Definition jsonString (jsonPartRaw : string) : string :=
  let t := Str.trim jsonPartRaw in
  match fence_capture t with
  | Some c => if Str.truthy c then c else t
  | None => t
  end.

End Decoder.

(** ** [runAIGeneration] and the task handlers *)
Module App.

(** What the code after the loop computes before it publishes: lines 244-268. *)
Record Outcome : Type := mkOutcome {
  finalConversationalPart : string;
  fileOps : list FileOperation;
  blueprint : option json;
  final_status : TaskStatus
}.

(** What the text source delivers: the chunks it yields and, when it ends
    abnormally, the message of the error it throws after them. *)
Record Stream : Type := mkStream {
  chunks : list string;
  failure : option string
}.

(** [setWorkspaces(prev => prev.map(ws => ws.id !== activeWorkspaceId ? ws : f ws))]. *)
Definition in_workspace (activeWorkspaceId : string) (f : Workspace -> Workspace)
    (prev : list Workspace) : list Workspace :=
  (fun ws => if String.eqb (ws_id ws) activeWorkspaceId then f ws else ws) <$> prev.

(** [{ ...ws, tasks: ws.tasks.map(task => task.id === taskId ? f task : task) }]. *)
Definition in_task (taskId : string) (f : AITask -> AITask) (ws : Workspace)
  : Workspace :=
  {| ws_id := ws_id ws; ws_name := ws_name ws; fileSystem := fileSystem ws;
     tasks := (fun task => if String.eqb (id task) taskId then f task else task)
              <$> tasks ws |}.

(** [{ ...ws, tasks: [newTask, ...ws.tasks] }]. *)
Definition add_task (newTask : AITask) (ws : Workspace) : Workspace :=
  {| ws_id := ws_id ws; ws_name := ws_name ws; fileSystem := fileSystem ws;
     tasks := newTask :: tasks ws |}.

(** [{ ...task, status: s }]. *)
Definition with_status (s : TaskStatus) (task : AITask) : AITask :=
  {| id := id task; userPrompt := userPrompt task; status := s;
     assistantResponse := assistantResponse task; task_error := task_error task;
     task_type := task_type task |}.

(** A task as [handleCreateTask] and [handleAutoPilotTick] create it. *)
Definition new_task (taskId userPrompt : string) (origin : TaskType) : AITask :=
  {| id := taskId; userPrompt := userPrompt; status := running;
     assistantResponse := None; task_error := None; task_type := Some origin |}.

(** Lines 238-241: the update published for each chunk. *)
Definition show_chunk (conversationalPart : string) (task : AITask) : AITask :=
  {| id := id task; userPrompt := userPrompt task; status := status task;
     assistantResponse :=
       Some {| response_content := conversationalPart;
               response_operations := None; response_blueprint := None |};
     task_error := task_error task; task_type := task_type task |}.

(** Line 276: the task as the completed round leaves it. *)
Definition finished_task (o : Outcome) (task : AITask) : AITask :=
  {| id := id task; userPrompt := userPrompt task; status := final_status o;
     assistantResponse :=
       Some {| response_content := finalConversationalPart o;
               response_operations := Some (fileOps o);
               response_blueprint :=
                 match blueprint o with
                 | Some v => if Js.truthy v then Some v else None
                 | None => None
                 end |};
     task_error := task_error task; task_type := task_type task |}.

(** Lines 270-278: the update published on completion. *)
Definition publish (taskId : string) (isAutoPilot : bool) (o : Outcome)
    (ws : Workspace) : Workspace :=
  let newFileSystem :=
    if isAutoPilot && (0 <? length (fileOps o))%nat
    then FS.applyFileOperations (fileSystem ws) (fileOps o)
    else fileSystem ws in
  {| ws_id := ws_id ws; ws_name := ws_name ws; fileSystem := newFileSystem;
     tasks := tasks (in_task taskId (finished_task o) ws) |}.

(** Line 283: the update published by the outer [catch]. *)
Definition failed_task (errorMessage : string) (task : AITask) : AITask :=
  {| id := id task; userPrompt := userPrompt task; status := error;
     assistantResponse := assistantResponse task;
     task_error := Some errorMessage; task_type := task_type task |}.

(** The loop of lines 230-242 on the workspaces: one published update per
    chunk, with the text accumulated so far. *)
Fixpoint stream_chunks (activeWorkspaceId taskId : string) (b : Framer.Buffer)
    (chunks : list string) (prev : list Workspace)
  : Framer.Buffer * list Workspace :=
  match chunks with
  | [] => (b, prev)
  | chunk :: rest =>
      let b' := Framer.feed b chunk in
      stream_chunks activeWorkspaceId taskId b' rest
        (in_workspace activeWorkspaceId
           (in_task taskId (show_chunk (Framer.shown b'))) prev)
  end.

(** A string or [null] as a condition: [null] and the empty string are falsy. *)
Definition truthy_id (i : option string) : option string :=
  match i with
  | Some s => if Str.truthy s then Some s else None
  | None => None
  end.

Definition find_workspace (i : string) (l : list Workspace) : option Workspace :=
  List.find (fun w => String.eqb (ws_id w) i) l.

Definition find_task (taskId : string) (l : list AITask) : option AITask :=
  List.find (fun t => String.eqb (id t) taskId) l.

Definition set_workspaces (f : list Workspace -> list Workspace) (st : AppState)
  : AppState :=
  {| workspaces := f (workspaces st); activeWorkspaceId := activeWorkspaceId st;
     workspaceUiStates := workspaceUiStates st |}.

(** [t.type === 'autopilot' && t.status === 'running']. *)
Definition is_running_autopilot (t : AITask) : bool :=
  bool_decide (task_type t = Some autopilot) && bool_decide (status t = running).

(** [activeWorkspace], [currentUiState] and [autoPilotRunningTask] of [App]. *)
Definition activeWorkspace (st : AppState) : option Workspace :=
  match activeWorkspaceId st with
  | Some i => find_workspace i (workspaces st)
  | None => None
  end.

Definition currentUiState (st : AppState) : WorkspaceUiState :=
  match truthy_id (activeWorkspaceId st) with
  | Some i => default DEFAULT_UI_STATE (workspaceUiStates st !! i)
  | None => DEFAULT_UI_STATE
  end.

Definition autoPilotRunningTask (st : AppState) : option AITask :=
  match activeWorkspace st with
  | Some w => List.find is_running_autopilot (tasks w)
  | None => None
  end.

(** Lines 335-339: whether the effect installs the interval that calls
    [handleAutoPilotTick]; the tick can fire only while it is installed. *)
Definition interval_installed (st : AppState) : bool :=
  negb (negb (isAutoPilotOn (currentUiState st))
        || negb (bool_decide (is_Some (truthy_id (activeWorkspaceId st))))
        || bool_decide (is_Some (autoPilotRunningTask st))).

(** [handleApproveTask]: the update it publishes for the active workspace. *)
Definition approve_in (taskId : string) (ws : Workspace) : Workspace :=
  match find_task taskId (tasks ws) with
  | None => ws
  | Some task =>
      if negb (bool_decide (status task = pending_confirmation)) then ws
      else match assistantResponse task ≫= response_operations with
           | None => ws
           | Some operations =>
               let newFileSystem := FS.applyFileOperations (fileSystem ws) operations in
               {| ws_id := ws_id ws; ws_name := ws_name ws;
                  fileSystem := newFileSystem;
                  tasks := tasks (in_task taskId (with_status completed) ws) |}
           end
  end.

Definition handleApproveTask (st : AppState) (taskId : string) : AppState :=
  match truthy_id (activeWorkspaceId st) with
  | None => st
  | Some active => set_workspaces (in_workspace active (approve_in taskId)) st
  end.

(** [handleRejectTask]. *)
Definition handleRejectTask (st : AppState) (taskId : string) : AppState :=
  match truthy_id (activeWorkspaceId st) with
  | None => st
  | Some active =>
      set_workspaces (in_workspace active (in_task taskId (with_status completed))) st
  end.

(** The part of [handleAutoPilotTick] before the round starts: [None] where
    it returns early, else the state with the new task. [taskId] is the
    fresh [crypto.randomUUID()]. *)
Definition handleAutoPilotTick_start (st : AppState) (taskId : string)
  : option AppState :=
  match truthy_id (activeWorkspaceId st) with
  | None => None
  | Some active =>
      match find_workspace active (workspaces st) with
      | None => None
      | Some currentWorkspace =>
          if existsb is_running_autopilot (tasks currentWorkspace) then None
          else Some (set_workspaces
                       (in_workspace active
                          (add_task (new_task taskId "Proactive AI Step" autopilot))) st)
      end
  end.

(** The part of [handleCreateTask] before the round starts. *)
Definition handleCreateTask_start (st : AppState) (userPrompt taskId : string)
  : option AppState :=
  if negb (Str.truthy (Str.trim userPrompt)) then None
  else match truthy_id (activeWorkspaceId st) with
       | None => None
       | Some active =>
           Some (set_workspaces
                   (in_workspace active (add_task (new_task taskId userPrompt user))) st)
       end.

(** The part of [handleApproveBlueprint] before the round starts. *)
Definition handleApproveBlueprint_start (st : AppState) (taskId : string)
  : option AppState :=
  match truthy_id (activeWorkspaceId st) with
  | None => None
  | Some active =>
      match find_workspace active (workspaces st) ≫= (fun w => find_task taskId (tasks w)) with
      | None => None
      | Some task =>
          match assistantResponse task ≫= response_blueprint with
          | None => None
          | Some b =>
              if Js.truthy b
              then Some (set_workspaces
                           (in_workspace active (in_task taskId (with_status running))) st)
              else None
          end
      end
  end.

Section Platform.

(** [JSON.parse]: the value, or the message of the [SyntaxError]. *)
Variable JSON_parse : string -> Completion json.

(** The unchecked cast of a parsed value to [FileOperation[]]. *)
Variable as_FileOperations : json -> list FileOperation.

(** [(JSON.parse(jsonString) as { operations }).operations || []]. *)
Definition parse_operations (jsonString : string) : Completion (list FileOperation) :=
  match JSON_parse jsonString with
  | Throw m => Throw m
  | Normal v =>
      match Js.get_operations v with
      | Throw m => Throw m
      | Normal (Some ops) => Normal (if Js.truthy ops then as_FileOperations ops else [])
      | Normal None => Normal []
      end
  end.

(** The raw text after the marker found at [index]. *)
Definition payload_after (fullResponseText : string) (index : Z) (separator : string)
  : string :=
  Str.substring_from fullResponseText (index + Z.of_nat (String.length separator)).

(** Lines 244-268: the decision taken on the complete text. A [Throw] is the
    [Error] that the inner [catch] re-throws. *)
Definition decode (fullResponseText : string) (isAutoPilot : bool)
  : Completion Outcome :=
  let blueprintIndex := Str.indexOf fullResponseText Framer.blueprintSeparator in
  let opsIndex := Str.indexOf fullResponseText Framer.opsSeparator in
  match Framer.payload_kind fullResponseText with
  | Some Framer.Blueprint =>
      let jsonPartRaw :=
        payload_after fullResponseText blueprintIndex Framer.blueprintSeparator in
      match JSON_parse (Decoder.jsonString jsonPartRaw) with
      | Normal v =>
          Normal {| finalConversationalPart :=
                      Str.trim (Str.substring_to fullResponseText blueprintIndex);
                    fileOps := [];
                    blueprint := Some v;
                    final_status := pending_blueprint_approval |}
      | Throw m => Throw ("Failed to parse blueprint from AI. " +:+ m)
      end
  | Some Framer.Operations =>
      let jsonPartRaw := payload_after fullResponseText opsIndex Framer.opsSeparator in
      match parse_operations (Decoder.jsonString jsonPartRaw) with
      | Normal ops =>
          Normal {| finalConversationalPart :=
                      Str.trim (Str.substring_to fullResponseText opsIndex);
                    fileOps := ops;
                    blueprint := None;
                    final_status :=
                      if isAutoPilot then completed else pending_confirmation |}
      | Throw m => Throw ("Failed to parse file operations from AI. " +:+ m)
      end
  | None =>
      Normal {| finalConversationalPart := fullResponseText;
                fileOps := [];
                blueprint := None;
                final_status := completed |}
  end.

(** Lines 244-284: what happens once the stream has ended, on the latest
    published workspaces: the completion update, or the update of the outer
    [catch] when decoding threw. *)
Definition finish (activeWorkspaceId taskId : string) (isAutoPilot : bool)
    (fullResponseText : string) (prev : list Workspace) : list Workspace :=
  match decode fullResponseText isAutoPilot with
  | Normal o => in_workspace activeWorkspaceId (publish taskId isAutoPilot o) prev
  | Throw errorMessage =>
      in_workspace activeWorkspaceId (in_task taskId (failed_task errorMessage)) prev
  end.

(** [runAIGeneration], for a round that nothing interleaves with. *)
Definition runAIGeneration (st : AppState) (stream : Stream) (taskId : string)
    (isAutoPilot : bool) : AppState :=
  match truthy_id (activeWorkspaceId st) with
  | None => st
  | Some active =>
      match find_workspace active (workspaces st) with
      | None => st
      | Some _ =>
          let '(b, streamed) :=
            stream_chunks active taskId Framer.initial (chunks stream) (workspaces st) in
          match failure stream with
          | Some errorMessage =>
              set_workspaces
                (fun _ => in_workspace active (in_task taskId (failed_task errorMessage))
                            streamed) st
          | None =>
              set_workspaces
                (fun _ => finish active taskId isAutoPilot (Framer.fullResponseText b)
                            streamed) st
          end
      end
  end.

(** [handleAutoPilotTick], [handleCreateTask] and [handleApproveBlueprint]:
    the guard and the new task, then the round. *)
Definition handleAutoPilotTick (st : AppState) (taskId : string) (stream : Stream)
  : AppState :=
  match handleAutoPilotTick_start st taskId with
  | None => st
  | Some st' => runAIGeneration st' stream taskId true
  end.

Definition handleCreateTask (st : AppState) (userPrompt taskId : string)
    (stream : Stream) : AppState :=
  match handleCreateTask_start st userPrompt taskId with
  | None => st
  | Some st' => runAIGeneration st' stream taskId false
  end.

Definition handleApproveBlueprint (st : AppState) (taskId : string) (stream : Stream)
  : AppState :=
  match handleApproveBlueprint_start st taskId with
  | None => st
  | Some st' => runAIGeneration st' stream taskId false
  end.

End Platform.

End App.

(** * Vocabulary of the properties *)
Module Spec.
Import Framer App.

(** [occurs sep s]: the text [s] contains [sep]. *)
Definition occurs (sep s : string) : Prop :=
  exists a b, s = a +:+ sep +:+ b.

(** The text accumulated from a sequence of chunks. *)
Definition join (chunks : list string) : string :=
  fold_right String.append "" chunks.

(** The fenced form of a payload [j]: the fence with its [json] tag, white
    space, [j], white space and the closing fence, with white space [o1] and
    [o2] around the block. *)
Definition fenced (o1 ws1 j ws2 o2 : string) : string :=
  o1 +:+ ("```json" +:+ ws1 +:+ j +:+ ws2 +:+ "```") +:+ o2.

(** [RENAME_FILE] and [RENAME_FOLDER]. *)
Definition is_rename (op : FileOperation) : bool :=
  match operation op with
  | RENAME_FILE | RENAME_FOLDER => true
  | _ => false
  end.

(** A path is invalid in a tree when it has no name at all, or when one of
    its names before the last is reached through a file. *)
Definition invalid_path (tree : FileSystemNode) (path : string) : Prop :=
  FS.path_parts path = []
  \/ exists pre q post x,
       FS.path_parts path = pre ++ q :: post /\ FS.node_at pre tree = Some (FileNode x).

(** What a round does to the workspaces [prev], giving [next]: a workspace
    other than [active] is untouched; in a workspace [active] the tree becomes
    [fs] of the old one, and every task [taskId] stays in place and satisfies
    [P]. *)
Definition tasks_become (taskId : string) (P : AITask -> Prop)
    (before after : list AITask) : Prop :=
  length after = length before
  /\ forall j task, before !! j = Some task ->
       if String.eqb (id task) taskId
       then exists task', after !! j = Some task' /\ id task' = taskId /\ P task'
       else after !! j = Some task.

Definition round_result (active taskId : string) (P : AITask -> Prop)
    (fs : FileSystemNode -> FileSystemNode) (prev next : list Workspace) : Prop :=
  length next = length prev
  /\ forall i ws, prev !! i = Some ws ->
       exists ws', next !! i = Some ws' /\ ws_id ws' = ws_id ws
         /\ if String.eqb (ws_id ws) active
            then fileSystem ws' = fs (fileSystem ws)
                 /\ tasks_become taskId P (tasks ws) (tasks ws')
            else ws' = ws.

(** The payload that the completion logic decodes. *)
Definition winning_payload (text : string) : option string :=
  match payload_kind text with
  | Some Blueprint =>
      Some (payload_after text (Str.indexOf text blueprintSeparator) blueprintSeparator)
  | Some Operations =>
      Some (payload_after text (Str.indexOf text opsSeparator) opsSeparator)
  | None => None
  end.

(** A parsed value without a usable [operations] member: any value but
    [null] that has no such member, or an object whose member is [null]. *)
Definition no_operations (v : json) : Prop :=
  match v with
  | JNull => False
  | JObject members =>
      Js.member "operations" members = None
      \/ Js.member "operations" members = Some JNull
  | _ => True
  end.

End Spec.

(** * Sample data

    [JSON.parse] is a parameter of the model. The examples below run the
    handlers on a few concrete payloads; [JSON_parse_samples] answers as
    [JSON.parse] does on exactly these texts and reports a syntax error on
    any other text. [read_FileOperations] reads an array of well-typed
    operation objects. *)
Module Samples.
Import App.

(** The text of the spec's example for the framer. *)
Definition hello_text : string := "hello ---JSON_OPERATIONS--- {...}".

(** A small tree: [src/App.tsx] and [README.md]. *)
Definition sample_tree : FileSystemNode :=
  FolderNode {[ "src" := FolderNode {[ "App.tsx" := FileNode "function App() {}" ]};
                "README.md" := FileNode "notes" ]}.

Definition create_folder (path : string) : FileOperation :=
  {| operation := CREATE_FOLDER; path := path; content := None; newPath := None;
     description := None |}.

Definition rename_file (path newPath : string) : FileOperation :=
  {| operation := RENAME_FILE; path := path; content := None;
     newPath := Some newPath; description := None |}.

Definition create_file (path content : string) : FileOperation :=
  {| operation := CREATE_FILE; path := path; content := Some content;
     newPath := None; description := None |}.

Definition bad_rename : FileOperation := rename_file "src/App.tsx" "README.md/App.tsx".
Definition good_create : FileOperation := create_file "src/b.ts" "export {}".

Definition q : string := String (ascii_of_nat 34) "".

(** [{"appName":"Notes","features":[],"styleGuidelines":[]}] *)
Definition blueprint_json : string :=
  "{" +:+ q +:+ "appName" +:+ q +:+ ":" +:+ q +:+ "Notes" +:+ q +:+ ","
  +:+ q +:+ "features" +:+ q +:+ ":[],"
  +:+ q +:+ "styleGuidelines" +:+ q +:+ ":[]}".

(** [{"operations":[{"operation":"CREATE_FILE","path":"src/x.tsx","content":"hi"}]}] *)
Definition operations_json : string :=
  "{" +:+ q +:+ "operations" +:+ q +:+ ":[{"
  +:+ q +:+ "operation" +:+ q +:+ ":" +:+ q +:+ "CREATE_FILE" +:+ q +:+ ","
  +:+ q +:+ "path" +:+ q +:+ ":" +:+ q +:+ "src/x.tsx" +:+ q +:+ ","
  +:+ q +:+ "content" +:+ q +:+ ":" +:+ q +:+ "hi" +:+ q +:+ "}]}".

(** [{"operations":[]}] *)
Definition empty_operations_json : string :=
  "{" +:+ q +:+ "operations" +:+ q +:+ ":[]}".

Definition JSON_parse_samples (text : string) : Completion json :=
  if String.eqb text blueprint_json then
    Normal (JObject [("appName", JString "Notes"); ("features", JArray []);
                     ("styleGuidelines", JArray [])])
  else if String.eqb text operations_json then
    Normal (JObject [("operations",
                      JArray [JObject [("operation", JString "CREATE_FILE");
                                       ("path", JString "src/x.tsx");
                                       ("content", JString "hi")]])])
  else if String.eqb text empty_operations_json then
    Normal (JObject [("operations", JArray [])])
  else if String.eqb text "{}" then Normal (JObject [])
  else if String.eqb text "null" then Normal JNull
  else Throw "Unexpected token".

Definition operation_of_string (s : string) : option FileOperationType :=
  if String.eqb s "CREATE_FILE" then Some CREATE_FILE
  else if String.eqb s "UPDATE_FILE" then Some UPDATE_FILE
  else if String.eqb s "DELETE_FILE" then Some DELETE_FILE
  else if String.eqb s "CREATE_FOLDER" then Some CREATE_FOLDER
  else if String.eqb s "DELETE_FOLDER" then Some DELETE_FOLDER
  else if String.eqb s "RENAME_FILE" then Some RENAME_FILE
  else if String.eqb s "RENAME_FOLDER" then Some RENAME_FOLDER
  else None.

Definition string_member (name : string) (members : list (string * json))
  : option string :=
  match Js.member name members with
  | Some (JString s) => Some s
  | _ => None
  end.

Definition read_FileOperation (v : json) : option FileOperation :=
  match v with
  | JObject members =>
      match string_member "operation" members ≫= operation_of_string,
            string_member "path" members with
      | Some k, Some p =>
          Some {| operation := k; path := p;
                  content := string_member "content" members;
                  newPath := string_member "newPath" members;
                  description := string_member "description" members |}
      | _, _ => None
      end
  | _ => None
  end.

Definition read_FileOperations (v : json) : list FileOperation :=
  match v with
  | JArray items => omap read_FileOperation items
  | _ => []
  end.

(** One workspace [w1] with the sample tree, active, auto-pilot on. *)
Definition start : AppState :=
  {| workspaces := [ {| ws_id := "w1"; ws_name := "My First Project";
                        fileSystem := sample_tree; tasks := [] |} ];
     activeWorkspaceId := Some "w1";
     workspaceUiStates := {[ "w1" := {| isAutoPilotOn := true |} ]} |}.

(** A response that ends in a blueprint, in two chunks, and one that ends in
    a batch of operations. *)
Definition blueprint_stream : Stream :=
  {| chunks := ["Here is a plan. ---JSON_BLUE"; "PRINT---" +:+ blueprint_json];
     failure := None |}.

Definition operations_stream : Stream :=
  {| chunks := ["Adding the file. "; "---JSON_OPERATIONS---"; operations_json];
     failure := None |}.

(** The tasks of the active workspace as [(id, status, type)]. *)
Definition task_summary (st : AppState) : list (string * TaskStatus * option TaskType) :=
  match activeWorkspace st with
  | Some w => (fun t => (id t, status t, task_type t)) <$> tasks w
  | None => []
  end.

Definition active_tree (st : AppState) : option FileSystemNode :=
  fileSystem <$> activeWorkspace st.

(** The sample runs: a tick whose round ends in a blueprint for task [A];
    then the approval of that blueprint, whose round ends in operations. *)
Definition planned : AppState :=
  handleAutoPilotTick JSON_parse_samples read_FileOperations start "A" blueprint_stream.

Definition implemented : AppState :=
  handleApproveBlueprint JSON_parse_samples read_FileOperations planned "A"
    operations_stream.

Definition null_text : string := "Done. ---JSON_OPERATIONS--- null".

(** A response whose payload is not JSON. *)
Definition broken_text : string := "Done. ---JSON_OPERATIONS--- {oops".

(** The state after a user prompt whose response ends in a [CREATE_FILE]. *)
Definition asked : AppState :=
  handleCreateTask JSON_parse_samples read_FileOperations start
    "add a file src/x.tsx with content hi" "T" operations_stream.

(** A task awaiting confirmation, written out. *)
Definition pending_task : AITask :=
  {| id := "T"; userPrompt := "add a file"; status := pending_confirmation;
     assistantResponse :=
       Some {| response_content := "Adding the file.";
               response_operations := Some [create_file "src/x.tsx" "hi"];
               response_blueprint := None |};
     task_error := None; task_type := Some user |}.

Definition pending_workspace : Workspace :=
  {| ws_id := "w1"; ws_name := "My First Project";
     fileSystem := sample_tree; tasks := [pending_task] |}.

Definition pending_state : AppState :=
  {| workspaces := [pending_workspace]; activeWorkspaceId := Some "w1";
     workspaceUiStates := ∅ |}.

End Samples.

(** * More of the program: the editor's file utilities *)
Module Editor.
Import App.

(** [updateFileContent]: [traversePath] without [createParents] on a copy,
    then [node.content = newContent] when the node found is a file. The
    node found is the child [key] of [parent]; for a path without names it
    is the root itself. *)
Definition updateFileContent (tree : FileSystemNode) (path newContent : string)
  : FileSystemNode :=
  let '(newTree, r) := FS.traversePath (FS.deep_clone tree) path false in
  match FS.node r with
  | Some (FileNode _) =>
      match FS.parent r with
      | Some p => FS.set_child p (FS.key r) (FileNode newContent) newTree
      | None => FileNode newContent
      end
  | _ => newTree
  end.

(** [{ ...ws, fileSystem: f ws.fileSystem }]. *)
Definition with_fileSystem (f : FileSystemNode -> FileSystemNode) (ws : Workspace)
  : Workspace :=
  {| ws_id := ws_id ws; ws_name := ws_name ws; fileSystem := f (fileSystem ws);
     tasks := tasks ws |}.

(** [handleFileContentChange]. *)
Definition handleFileContentChange (st : AppState) (path content : string) : AppState :=
  match truthy_id (activeWorkspaceId st) with
  | None => st
  | Some active =>
      set_workspaces
        (in_workspace active (with_fileSystem (fun t => updateFileContent t path content)))
        st
  end.

(** [handleDirectFileOperations]. *)
Definition handleDirectFileOperations (st : AppState) (operations : list FileOperation)
  : AppState :=
  match truthy_id (activeWorkspaceId st) with
  | None => st
  | Some active =>
      set_workspaces
        (in_workspace active
           (with_fileSystem (fun t => FS.applyFileOperations t operations))) st
  end.

(** [previewCode]. *)
Definition previewCode (st : AppState) : string :=
  match activeWorkspace st with
  | None => "// No active workspace"
  | Some w =>
      match FS.findNodeByPath "src/App.tsx" (fileSystem w) with
      | Some (FileNode content) => content
      | _ => "// App.tsx not found in src folder."
      end
  end.


End Editor.

(** * More of the program: workspaces, console and extensions *)
Module Shell.
Import App.

(** [INITIAL_FILES], for the text [INITIAL_CODE] of the welcome file. *)
Definition INITIAL_FILES (INITIAL_CODE : string) : FileSystemNode :=
  FolderNode {[ "src" := FolderNode {[ "App.tsx" := FileNode INITIAL_CODE ]} ]}.

(** The [onConfirm] of [handleCreateWorkspace]; [newId] is the fresh
    [crypto.randomUUID()]. *)
Definition handleCreateWorkspace (INITIAL_CODE : string) (st : AppState)
    (newId name : string) : AppState :=
  if Str.truthy (Str.trim name) then
    {| workspaces :=
         workspaces st ++ [ {| ws_id := newId; ws_name := name;
                               fileSystem := INITIAL_FILES INITIAL_CODE; tasks := [] |} ];
       activeWorkspaceId := Some newId;
       workspaceUiStates := <[newId := DEFAULT_UI_STATE]> (workspaceUiStates st) |}
  else st.

(** [handleDeleteWorkspace]; [confirmed] is the answer to [confirm(...)]. *)
Definition handleDeleteWorkspace (st : AppState) (i : string) (confirmed : bool)
  : AppState :=
  if (length (workspaces st) <=? 1)%nat then st
  else if negb confirmed then st
  else
    let newWorkspaces :=
      List.filter (fun ws => negb (String.eqb (ws_id ws) i)) (workspaces st) in
    let newActiveId :=
      if bool_decide (activeWorkspaceId st = Some i)
      then ws_id <$> head newWorkspaces
      else activeWorkspaceId st in
    {| workspaces := newWorkspaces; activeWorkspaceId := newActiveId;
       workspaceUiStates := delete i (workspaceUiStates st) |}.

(** [handleSwitchWorkspace]. *)
Definition handleSwitchWorkspace (st : AppState) (i : string) : AppState :=
  {| workspaces := workspaces st; activeWorkspaceId := Some i;
     workspaceUiStates := workspaceUiStates st |}.

(** [LogMessage] of [types.ts], without its timestamp. *)
Inductive LogLevel : Type := log | debug | info | warn | error_level.

#[global] Instance LogLevel_eq_dec : EqDecision LogLevel.
Proof. solve_decision. Defined.

Record LogMessage : Type := mkLog {
  level : LogLevel;
  message : string
}.

(** The console state of [App]: [consoleLogs] and [fixableError]. *)
Record ConsoleState : Type := mkConsole {
  consoleLogs : list LogMessage;
  fixableError : option LogMessage
}.

(** [onConsoleLog] of [App]:
    [setConsoleLogs(prev => [log, ...prev].slice(0, 50))] and
    [if (log.level === 'error' && !fixableError) setFixableError(log)]. *)
Definition onConsoleLog (c : ConsoleState) (l : LogMessage) : ConsoleState :=
  {| consoleLogs := firstn 50 (l :: consoleLogs c);
     fixableError :=
       if bool_decide (level l = error_level) && negb (bool_decide (is_Some (fixableError c)))
       then Some l else fixableError c |}.

(** [validLevels.includes(level) ? level : 'log'] of the preview, on the
    level that the frame sends. *)
Definition logLevel (sent : string) : LogLevel :=
  if String.eqb sent "log" then log
  else if String.eqb sent "debug" then debug
  else if String.eqb sent "info" then info
  else if String.eqb sent "warn" then warn
  else if String.eqb sent "error" then error_level
  else log.

(** A message event as [handleMessage] of the preview reads it. *)
Inductive MessageData : Type :=
  | ConsoleData (sent_level message : string)
  | ElementSelectedData (selector text : string)
  | OtherData.

Record MessageEvent : Type := mkEvent {
  from_iframe : bool;
  data : MessageData
}.

(** What the preview and [App] hold between them: the preview's [logs] and
    [isSelectorActive], the console state of [App], the tab shown and the
    element selected. *)
Record PreviewState : Type := mkPreview {
  logs : list LogMessage;
  isSelectorActive : bool;
  console : ConsoleState;
  console_tab : bool;
  selectedElementInfo : option (string * string)
}.

(** [handleMessage] of the preview, with the callbacks of [App] applied:
    [onConsoleLog], [onTabChange('console')] and [onElementSelected]. *)
Definition handleMessage (p : PreviewState) (e : MessageEvent) : PreviewState :=
  if negb (from_iframe e) then p
  else match data e with
       | ConsoleData sent m =>
           let newLog := {| level := logLevel sent; message := m |} in
           {| logs := logs p ++ [newLog];
              isSelectorActive := isSelectorActive p;
              console := onConsoleLog (console p) newLog;
              console_tab :=
                if bool_decide (logLevel sent = error_level) && negb (console_tab p)
                then true else console_tab p;
              selectedElementInfo := selectedElementInfo p |}
       | ElementSelectedData selector text =>
           {| logs := logs p; isSelectorActive := false; console := console p;
              console_tab := console_tab p;
              selectedElementInfo := Some (selector, text) |}
       | OtherData => p
       end.

(** [localStorage] as the items it holds. *)
Definition Storage : Type := gmap string string.

(** [s.replace(pattern, replacement)] for a text pattern: the first
    occurrence only. *)
Definition replace_first (pattern replacement s : string) : string :=
  let i := Str.indexOf s pattern in
  if (i =? -1)%Z then s
  else Str.substring_to s i +:+ replacement
       +:+ Str.substring_from s (i + Z.of_nat (String.length pattern)).

(** [getInstalledExtensions]; the order of the entries of a storage is left
    to the platform. *)
Definition getInstalledExtensions (localStorage : gmap string string) : list string :=
  List.map (fun kv => replace_first "ext_" "" (fst kv))
    (List.filter (fun kv => Str.starts_with "ext_" (fst kv) && String.eqb (snd kv) "true")
       (map_to_list localStorage)).

(** [handleInstall] and [handleUninstall] of an extension item, on the
    storage. *)
Definition storageKey (name : string) : string := "ext_" +:+ name.

Definition handleInstall (localStorage : gmap string string) (name : string)
  : gmap string string :=
  <[storageKey name := "true"]> localStorage.

Definition handleUninstall (localStorage : gmap string string) (name : string)
  : gmap string string :=
  delete (storageKey name) localStorage.

End Shell.

(** * More of the program: the element picker of the preview frame *)
Module Picker.

(** The script [selectorScript] that runs inside the preview. An element of
    the document is a number; [outline] gives the [style.outline] of each
    element; [posted] lists the targets of the [element-selected] messages
    sent to the host, the latest first (the selector and the text sent are
    computed from the target). The outline offset and the cursor, which are
    set beside the outline, are left out. *)
Definition transientHighlightStyle : string := "2px solid #3b82f6".
Definition permanentHighlightStyle : string := "3px solid #f59e0b".

Record State : Type := mkState {
  selectorActive : bool;
  transientHighlightedElement : option nat;
  permanentHighlightedElement : option nat;
  outline : nat -> string;
  posted : list nat
}.

Definition initial : State :=
  {| selectorActive := false; transientHighlightedElement := None;
     permanentHighlightedElement := None; outline := fun _ => ""; posted := [] |}.

(** [el.style.outline = v]. *)
Definition set_outline (el : nat) (v : string) (o : nat -> string) : nat -> string :=
  fun x => if decide (x = el) then v else o x.

Definition clear_outline_of (el : option nat) (o : nat -> string) : nat -> string :=
  match el with
  | Some e => set_outline e "" o
  | None => o
  end.

(** [clearHighlights]. *)
Definition clearHighlights (s : State) : State :=
  {| selectorActive := selectorActive s;
     transientHighlightedElement := None;
     permanentHighlightedElement := None;
     outline := clear_outline_of (permanentHighlightedElement s)
                  (clear_outline_of (transientHighlightedElement s) (outline s));
     posted := posted s |}.

Inductive Event : Type :=
  | ToggleSelector (enabled : bool)
  | ClearSelection
  | MouseOver (target : nat)
  | MouseOut
  | Click (target : nat).

(** The listeners of the script, one event at a time. *)
Definition step (s : State) (e : Event) : State :=
  match e with
  | ToggleSelector enabled =>
      let s1 := {| selectorActive := enabled;
                   transientHighlightedElement := transientHighlightedElement s;
                   permanentHighlightedElement := permanentHighlightedElement s;
                   outline := outline s; posted := posted s |} in
      if negb enabled then clearHighlights s1 else s1
  | ClearSelection =>
      {| selectorActive := selectorActive s;
         transientHighlightedElement := transientHighlightedElement s;
         permanentHighlightedElement := None;
         outline := clear_outline_of (permanentHighlightedElement s) (outline s);
         posted := posted s |}
  | MouseOver target =>
      if negb (selectorActive s)
         || bool_decide (Some target = permanentHighlightedElement s) then s
      else if bool_decide (Some target = transientHighlightedElement s) then s
      else
        {| selectorActive := selectorActive s;
           transientHighlightedElement := Some target;
           permanentHighlightedElement := permanentHighlightedElement s;
           outline :=
             set_outline target transientHighlightStyle
               (clear_outline_of (transientHighlightedElement s) (outline s));
           posted := posted s |}
  | MouseOut =>
      match transientHighlightedElement s with
      | Some t =>
          if negb (selectorActive s) then s
          else {| selectorActive := selectorActive s;
                  transientHighlightedElement := None;
                  permanentHighlightedElement := permanentHighlightedElement s;
                  outline := set_outline t "" (outline s);
                  posted := posted s |}
      | None => s
      end
  | Click target =>
      if negb (selectorActive s) then s
      else
        let s1 := clearHighlights s in
        {| selectorActive := false;
           transientHighlightedElement := None;
           permanentHighlightedElement := Some target;
           outline := set_outline target permanentHighlightStyle (outline s1);
           posted := target :: posted s |}
  end.

Definition run (s : State) (events : list Event) : State := fold_left step events s.

End Picker.

(** * More of the program: the history given to the model *)
Module History.

Definition FIRST_MESSAGE : string := "This is the first message in the conversation.".

(** [l.join(sep)]. *)
Fixpoint join_with (sep : string) (l : list string) : string :=
  match l with
  | [] => ""
  | [x] => x
  | x :: rest => x +:+ sep +:+ join_with sep rest
  end.

Definition nl : string := String (ascii_of_nat 10) "".
Definition dq : string := String (ascii_of_nat 34) "".

(** [t.userPrompt && (t.assistantResponse || t.error)]. *)
Definition relevant (t : AITask) : bool :=
  Str.truthy (userPrompt t)
  && (bool_decide (is_Some (assistantResponse t))
      || match task_error t with Some e => Str.truthy e | None => false end).

(** The lines [assistantLines] of one task. *)
Definition assistantLines (task : AITask) : list string :=
  match assistantResponse task with
  | Some r =>
      ("Assistant: " +:+ response_content r)
      :: (if bool_decide (status task = pending_confirmation)
             && match response_operations r with
                | Some ops => (0 <? length ops)%nat
                | None => false
                end
          then ["(System note: My proposed changes are currently pending user approval.)"]
          else if bool_decide (status task = pending_blueprint_approval)
                  && match response_blueprint r with
                     | Some b => Js.truthy b
                     | None => false
                     end
          then ["(System note: I have proposed a blueprint and am waiting for user approval before proceeding to code.)"]
          else [])
  | None => []
  end
  ++ match task_error task with
     | Some e =>
         if bool_decide (status task = error) && Str.truthy e
         then ["(System note: I encountered an error. Error message: " +:+ dq +:+ e
               +:+ dq +:+ ". I must not repeat this mistake.)"]
         else []
     | None => []
     end.

Definition render (task : AITask) : string :=
  ("User: " +:+ userPrompt task) +:+ nl +:+ join_with nl (assistantLines task).

(** [serializeTaskHistory]. *)
Definition serializeTaskHistory (tasks : list AITask) : string :=
  let relevantTasks := rev (firstn 10 (List.filter relevant tasks)) in
  if (length relevantTasks =? 0)%nat then FIRST_MESSAGE
  else
    let historySummary := join_with (nl +:+ nl) (List.map render relevantTasks) in
    if negb (Str.truthy historySummary) then FIRST_MESSAGE
    else "For context, here is the conversation history for this session. Pay close attention to system notes about errors or pending actions:"
         +:+ nl +:+ historySummary +:+ nl +:+ nl +:+ "---" +:+ nl.

End History.

(** Vocabulary of the further properties. *)
Module Spec2.

(** A name as a folder can hold it and a path can address it: not empty
    and without a slash. *)
Fixpoint slash_free (s : string) : bool :=
  match s with
  | EmptyString => true
  | String c s' => negb (Ascii.eqb c "/"%char) && slash_free s'
  end.

Definition good_name (s : string) : Prop :=
  Str.truthy s = true /\ slash_free s = true.

(** Two addresses are unrelated when neither leads through the other. *)
Definition unrelated (p q : list string) : Prop :=
  ~ p `prefix_of` q /\ ~ q `prefix_of` p.






End Spec2.

(** Further sample data. *)
Module Samples2.
Import Samples.




End Samples2.

(** Vocabulary of the properties of the element picker. *)
Module Spec3.
Import Picker.

(** The outline that the element [x] should have, given the elements that
    the picker tracks. *)
Definition tracked_outline (s : State) (x : nat) : string :=
  if bool_decide (permanentHighlightedElement s = Some x) then permanentHighlightStyle
  else if bool_decide (transientHighlightedElement s = Some x) then transientHighlightStyle
  else "".

(** A state of the picker is consistent when every outline is the one of a
    tracked element, nothing is highlighted in passing while the picker is
    off, and no element is tracked twice. *)
Definition consistent (s : State) : Prop :=
  (forall x, outline s x = tracked_outline s x)
  /\ (selectorActive s = false -> transientHighlightedElement s = None)
  /\ (forall x, transientHighlightedElement s = Some x ->
        permanentHighlightedElement s <> Some x).

(** The host switches the picker on. *)
Definition arming (e : Event) : bool :=
  match e with
  | ToggleSelector true => true
  | _ => false
  end.

(** [1] for [true], [0] for [false]. *)
Definition b2n (b : bool) : nat := if b then 1%nat else 0%nat.

End Spec3.

(** Further sample states. *)
Module Samples3.

Definition two_workspaces : AppState :=
  {| workspaces :=
       [ {| ws_id := "w1"; ws_name := "one"; fileSystem := Samples.sample_tree; tasks := [] |};
         {| ws_id := "w2"; ws_name := "two"; fileSystem := Samples.sample_tree; tasks := [] |} ];
     activeWorkspaceId := Some "w1";
     workspaceUiStates := ∅ |}.

Definition quiet_console : Shell.ConsoleState :=
  {| Shell.consoleLogs := []; Shell.fixableError := None |}.

Definition fresh_preview : Shell.PreviewState :=
  {| Shell.logs := []; Shell.isSelectorActive := false; Shell.console := quiet_console;
     Shell.console_tab := false; Shell.selectedElementInfo := None |}.

Definition sample_events : list Shell.MessageEvent :=
  [ {| Shell.from_iframe := true; Shell.data := Shell.ConsoleData "warn" "slow" |};
    {| Shell.from_iframe := false; Shell.data := Shell.ConsoleData "error" "spoofed" |};
    {| Shell.from_iframe := true; Shell.data := Shell.ConsoleData "trace" "odd level" |} ].

Definition edited_state : AppState :=
  {| workspaces :=
       [ {| ws_id := "w1"; ws_name := "one";
            fileSystem := Shell.INITIAL_FILES "// old"; tasks := [] |} ];
     activeWorkspaceId := Some "w1";
     workspaceUiStates := ∅ |}.

End Samples3.

(** * Properties *)

(** ** Facts about the string functions *)
Module StrFacts.
Import Str Spec Samples.

Lemma append_nil_r (s : string) : s +:+ "" = s.
Proof. induction s as [|c s IH]; simpl; [done | by rewrite IH]. Qed.

Lemma append_assoc (a b c : string) : (a +:+ b) +:+ c = a +:+ b +:+ c.
Proof. induction a as [|x a IH]; simpl; [done | by rewrite IH]. Qed.

Lemma length_append (a b : string) :
  String.length (a +:+ b) = (String.length a + String.length b)%nat.
Proof. induction a as [|x a IH]; simpl; [done | by rewrite IH]. Qed.

Lemma starts_with_append (p r : string) : starts_with p (p +:+ r) = true.
Proof.
  induction p as [|c p IH]; simpl; [done |].
  by rewrite Ascii.eqb_refl, IH.
Qed.

Lemma starts_with_inv (p s : string) :
  starts_with p s = true -> exists r, s = p +:+ r.
Proof.
  revert s; induction p as [|c p IH]; intros s H; simpl in *.
  - by exists s.
  - destruct s as [|d s]; [done |].
    apply andb_true_iff in H as [Hc Hp].
    apply Ascii.eqb_eq in Hc as ->.
    destruct (IH _ Hp) as [r ->]. by exists r.
Qed.

Lemma take_drop (n : nat) (s : string) : take n s +:+ drop n s = s.
Proof.
  revert s; induction n as [|n IH]; intros [|c s]; simpl; try done.
  by rewrite IH.
Qed.

Lemma take_append (a b : string) : take (String.length a) (a +:+ b) = a.
Proof. induction a as [|c a IH]; simpl; [by destruct b | by rewrite IH]. Qed.

Lemma drop_append (a b : string) : drop (String.length a) (a +:+ b) = b.
Proof. induction a as [|c a IH]; simpl; done. Qed.

Lemma length_take (n : nat) (s : string) :
  (n <= String.length s)%nat -> String.length (take n s) = n.
Proof.
  revert s; induction n as [|n IH]; intros [|c s] H; simpl in *; try done; try lia.
  rewrite IH; lia.
Qed.

(** What [indexOf_from] returns: [-1] when [sep] starts at no position of
    [s], else [i] plus the first position at which it starts. *)
Lemma indexOf_from_spec (sep s : string) (i : Z) :
  0 <= i ->
  (indexOf_from sep s i = -1 /\ forall k, starts_with sep (drop k s) = false)
  \/ (exists k : nat,
        indexOf_from sep s i = i + Z.of_nat k
        /\ (k <= String.length s)%nat
        /\ starts_with sep (drop k s) = true
        /\ forall k', (k' < k)%nat -> starts_with sep (drop k' s) = false).
Proof.
  revert i; induction s as [|c s IH]; intros i Hi; simpl.
  - destruct (starts_with sep "") eqn:E.
    + right. exists 0%nat. simpl.
      split; [lia |]. split; [lia |]. split; [done |]. intros; lia.
    + left. split; [done |]. by intros [|k]; simpl.
  - destruct (starts_with sep (String c s)) eqn:E.
    + right. exists 0%nat. simpl.
      split; [lia |]. split; [lia |]. split; [done |]. intros; lia.
    + destruct (IH (i + 1)) as [[H1 H2] | (k & H1 & H2 & H3 & H4)]; [lia | |].
      * left. split; [done |]. intros [|k]; simpl; [done | apply H2].
      * right. exists (S k). simpl.
        split; [lia |]. split; [lia |]. split; [done |].
        intros [|k'] Hk; simpl; [done | apply H4; lia].
Qed.

Lemma occurs_starts_with (sep s a b : string) :
  s = a +:+ sep +:+ b -> starts_with sep (drop (String.length a) s) = true.
Proof. intros ->. rewrite drop_append. apply starts_with_append. Qed.

(** [indexOf] finds a separator that occurs, at its first occurrence. *)
Lemma indexOf_occurs (sep s : string) :
  occurs sep s ->
  exists k : nat,
    indexOf s sep = Z.of_nat k
    /\ (k <= String.length s)%nat
    /\ (exists rest, s = take k s +:+ sep +:+ rest)
    /\ forall a b, s = a +:+ sep +:+ b -> (k <= String.length a)%nat.
Proof.
  intros (a & b & Hs). unfold indexOf.
  destruct (indexOf_from_spec sep s 0) as [[_ H] | (k & H1 & H2 & H3 & H4)]; [lia | |].
  - specialize (H (String.length a)).
    by rewrite (occurs_starts_with _ _ _ _ Hs) in H.
  - exists k. split; [by rewrite H1 |]. split; [done |]. split.
    + destruct (starts_with_inv _ _ H3) as [rest Hr]. exists rest.
      by rewrite <- Hr, take_drop.
    + intros a' b' Hs'. destruct (decide (k <= String.length a')%nat); [done |].
      pose proof (occurs_starts_with _ _ _ _ Hs') as Ha.
      rewrite H4 in Ha; [done | lia].
Qed.

(** [indexOf] answers [-1] only when the separator does not occur. *)
Lemma indexOf_absent (sep s : string) :
  indexOf s sep = -1 -> ~ occurs sep s.
Proof.
  intros H (k & Hk & _)%indexOf_occurs. lia.
Qed.

Lemma indexOf_found (sep s : string) :
  indexOf s sep <> -1 -> occurs sep s.
Proof.
  unfold indexOf. intros H.
  destruct (indexOf_from_spec sep s 0) as [[H1 _] | (k & _ & _ & H3 & _)]; [lia | done |].
  destruct (starts_with_inv _ _ H3) as [rest Hr].
  exists (take k s), rest. by rewrite <- Hr, take_drop.
Qed.

End StrFacts.

(** ** The stream framer *)
Module FramerFacts.
Import Str Spec Samples StrFacts Framer.

Lemma feed_all_cons (b : Buffer) (chunk : string) (rest : list string) :
  feed_all b (chunk :: rest) = feed_all (feed b chunk) rest.
Proof. reflexivity. Qed.

Lemma feed_all_text (chunks : list string) (b : Buffer) :
  fullResponseText (feed_all b chunks) = fullResponseText b +:+ join chunks.
Proof.
  revert b; induction chunks as [|c rest IH]; intros b.
  - simpl. by rewrite append_nil_r.
  - rewrite feed_all_cons, IH. simpl. by rewrite append_assoc.
Qed.

Lemma feed_all_shown (rest : list string) (b : Buffer) (chunk : string) :
  shown (feed_all b (chunk :: rest))
  = conversationalPart (fullResponseText b +:+ join (chunk :: rest)).
Proof.
  revert b chunk; induction rest as [|c rest IH]; intros b chunk.
  - simpl. by rewrite append_nil_r.
  - rewrite feed_all_cons, IH. simpl. by rewrite append_assoc.
Qed.

(** After any chunks the buffer holds their concatenation and its
    classification. *)
Lemma feed_all_initial (chunks : list string) :
  feed_all initial chunks
  = {| fullResponseText := join chunks; shown := conversationalPart (join chunks) |}.
Proof.
  pose proof (feed_all_text chunks initial) as Ht.
  destruct chunks as [|c rest].
  - reflexivity.
  - pose proof (feed_all_shown rest initial c) as Hs.
    destruct (feed_all initial (c :: rest)) as [t sh]. simpl in *. by subst.
Qed.

(** Every prefix of the example either lacks the operations marker or is
    classified with the prefix [hello ]. *)
Lemma sample_prefixes :
  forallb (fun n => (indexOf (take n hello_text) opsSeparator =? -1)
                    || String.eqb (conversationalPart (take n hello_text)) "hello ")
          (seq 0 (S (String.length hello_text))) = true.
Proof. vm_compute. reflexivity. Qed.

Lemma sample_prefix_shown (acc rest : string) :
  acc +:+ rest = hello_text -> occurs opsSeparator acc ->
  conversationalPart acc = "hello ".
Proof.
  intros Hs Ho.
  assert (acc = take (String.length acc) hello_text) as Hacc
    by (by rewrite <- Hs, take_append).
  assert (String.length acc <= String.length hello_text)%nat as Hlen
    by (rewrite <- Hs, length_append; lia).
  pose proof sample_prefixes as Hall.
  rewrite forallb_forall in Hall.
  specialize (Hall (String.length acc)).
  rewrite <- Hacc in Hall.
  destruct (indexOf_occurs _ _ Ho) as (k & Hk & _).
  assert (In (String.length acc) (seq 0 (S (String.length hello_text)))) as Hin
    by (apply in_seq; lia).
  apply Hall in Hin. apply orb_true_iff in Hin as [Hin | Hin].
  - apply Z.eqb_eq in Hin. lia.
  - by apply String.eqb_eq in Hin.
Qed.

(** C5. What the framer shows after a sequence of chunks depends on their
    concatenation only: any other sequence of chunks with the same
    concatenation leaves the same buffer. For the text
    [hello ---JSON_OPERATIONS--- {...}], cut into chunks in any way, as soon
    as the chunks received contain the whole operations marker the
    conversational part shown is [hello ]. *)
Theorem framer_independent_of_chunking (chunks : list string) :
  (forall chunks', join chunks' = join chunks ->
     feed_all initial chunks' = feed_all initial chunks)
  /\ (forall rest, join chunks +:+ rest = hello_text ->
        occurs opsSeparator (join chunks) ->
        shown (feed_all initial chunks) = "hello ").
Proof.
  split.
  - intros chunks' H. by rewrite !feed_all_initial, H.
  - intros rest Hs Ho. rewrite feed_all_initial. simpl.
    eapply sample_prefix_shown; eauto.
Qed.

Lemma framer_independent_of_chunking_witness :
  shown (feed_all initial ["hel"; "lo ---JSON_OPER"; "ATIONS--- {"]) = "hello ".
Proof.
  apply (proj2 (framer_independent_of_chunking ["hel"; "lo ---JSON_OPER"; "ATIONS--- {"])
               "...}").
  - reflexivity.
  - exists "hello ", " {". reflexivity.
Defined.

Lemma blueprint_found (text : string) :
  occurs blueprintSeparator text ->
  exists k : nat,
    indexOf text blueprintSeparator = Z.of_nat k
    /\ payload_kind text = Some Blueprint
    /\ conversationalPart text = take k text
    /\ String.length (take k text) = k
    /\ (exists rest, text = take k text +:+ blueprintSeparator +:+ rest)
    /\ forall a b, text = a +:+ blueprintSeparator +:+ b -> (k <= String.length a)%nat.
Proof.
  intros (k & Hk & Hlen & Hrest & Hmin)%indexOf_occurs.
  exists k. split; [done |].
  assert (negb (Z.of_nat k =? -1) = true) as Hne
    by (apply negb_true_iff, Z.eqb_neq; lia).
  unfold payload_kind, conversationalPart, separatorIdx, substring_to.
  rewrite Hk; simpl. rewrite Hne. simpl. rewrite Hne, Nat2Z.id.
  repeat split; try done. by apply length_take.
Qed.

End FramerFacts.

(** ** The payload decoder *)
Module DecoderFacts.
Import Str Spec Samples StrFacts Decoder.

Lemma all_space_append (a b : string) :
  all_space (a +:+ b) = all_space a && all_space b.
Proof.
  induction a as [|c a IH]; simpl; [done |].
  by rewrite IH, andb_assoc.
Qed.

Lemma trimStart_space (ws s : string) :
  all_space ws = true -> trimStart (ws +:+ s) = trimStart s.
Proof.
  induction ws as [|c ws IH]; simpl; [done |].
  intros [Hc Hws]%andb_true_iff. rewrite Hc. by apply IH.
Qed.

Lemma trimStart_append (s t : string) :
  all_space s = false -> trimStart (s +:+ t) = trimStart s +:+ t.
Proof.
  induction s as [|c s IH]; simpl; [done |].
  destruct (is_space c); simpl; [apply IH | done].
Qed.

Lemma trimEnd_space (s ws : string) :
  all_space ws = true -> trimEnd (s +:+ ws) = trimEnd s.
Proof.
  intros Hws. induction s as [|c s IH].
  - simpl. destruct ws as [|d ws]; [done |]. simpl in *. by rewrite Hws.
  - change (String c s +:+ ws) with (String c (s +:+ ws)).
    cbn [trimEnd]. rewrite IH.
    change (String c (s +:+ ws)) with (String c s +:+ ws).
    by rewrite all_space_append, Hws, andb_true_r.
Qed.

Lemma trimEnd_append (s t : string) :
  all_space t = false -> trimEnd (s +:+ t) = s +:+ trimEnd t.
Proof.
  intros Ht. induction s as [|c s IH]; [done |].
  change (String c s +:+ t) with (String c (s +:+ t)).
  cbn [trimEnd]. rewrite IH.
  change (String c (s +:+ t)) with (String c s +:+ t).
  by rewrite all_space_append, Ht, andb_false_r.
Qed.

(** A text that is not blank starts, once trimmed at the start, with a
    character that is not white space. *)
Lemma trimStart_nonblank (s : string) :
  all_space s = false ->
  exists c r, trimStart s = String c r /\ is_space c = false.
Proof.
  induction s as [|c s IH]; simpl; [done |].
  destruct (is_space c) eqn:E; simpl; [done |].
  intros _. by exists c, s.
Qed.

Lemma all_space_trimStart (s : string) :
  all_space s = false -> all_space (trimStart s) = false.
Proof.
  intros (c & r & -> & Hc)%trimStart_nonblank. simpl. by rewrite Hc.
Qed.

Lemma trim_nonblank (s : string) :
  all_space s = false -> truthy (trim s) = true.
Proof.
  intros (c & r & E & Hc)%trimStart_nonblank. unfold trim. rewrite E.
  simpl. by rewrite Hc.
Qed.

Lemma ends_with_append (a p : string) : ends_with p (a +:+ p) = true.
Proof.
  unfold ends_with. rewrite length_append.
  replace (String.length a + String.length p - String.length p)%nat
    with (String.length a) by lia.
  rewrite drop_append, String.eqb_refl, andb_true_r.
  apply Nat.leb_le. lia.
Qed.

Lemma trim_fenced (o1 ws1 j ws2 o2 : string) :
  all_space o1 = true -> all_space o2 = true ->
  trim (fenced o1 ws1 j ws2 o2) = "```json" +:+ ws1 +:+ j +:+ ws2 +:+ "```".
Proof.
  intros H1 H2. unfold trim, fenced.
  rewrite trimStart_space by done.
  rewrite trimStart_append by done.
  change (trimStart ("```json" +:+ ws1 +:+ j +:+ ws2 +:+ "```"))
    with ("```json" +:+ ws1 +:+ j +:+ ws2 +:+ "```").
  rewrite trimEnd_space by done.
  rewrite <- !append_assoc. rewrite trimEnd_append by done.
  reflexivity.
Qed.

Lemma jsonString_fenced (o1 ws1 j ws2 o2 : string) :
  all_space o1 = true -> all_space o2 = true ->
  all_space ws1 = true -> all_space ws2 = true ->
  all_space j = false ->
  jsonString (fenced o1 ws1 j ws2 o2) = trim j.
Proof.
  intros Ho1 Ho2 Hw1 Hw2 Hj. unfold jsonString.
  rewrite trim_fenced by done.
  unfold fence_capture, fence.
  cbn [starts_with String.append Ascii.eqb Bool.eqb andb drop].
  rewrite trimStart_space by done.
  rewrite trimStart_append by done.
  replace (trimStart j +:+ ws2 +:+ "```") with ((trimStart j +:+ ws2) +:+ "```")
    by (by rewrite append_assoc).
  rewrite ends_with_append, length_append.
  replace (String.length (trimStart j +:+ ws2) + String.length "```" - 3)%nat
    with (String.length (trimStart j +:+ ws2)) by (simpl; lia).
  rewrite take_append, trimEnd_space by done.
  fold (trim j). by rewrite trim_nonblank.
Qed.

Lemma jsonString_bare (j : string) :
  starts_with fence (trim j) = false -> jsonString j = trim j.
Proof. intros H. unfold jsonString, fence_capture. by rewrite H. Qed.

(** The spec's example: both forms of an empty batch give the same text to
    the parser. *)
Example jsonString_example :
  let q := String (ascii_of_nat 34) "" in
  let bare := "{" +:+ q +:+ "operations" +:+ q +:+ ":[]}" in
  let nl := String (ascii_of_nat 10) "" in
  jsonString ("```json" +:+ nl +:+ bare +:+ nl +:+ "```") = bare
  /\ jsonString bare = bare.
Proof. split; reflexivity. Qed.

End DecoderFacts.

(** ** The file system *)
Module FSFacts.
Import FS Spec Samples.

Lemma node_at_app (a b : list string) (t : FileSystemNode) :
  node_at (a ++ b) t = node_at a t ≫= node_at b.
Proof.
  revert t; induction a as [|p a IH]; intros t; simpl; [done |].
  destruct t as [c | ch]; [done |].
  destruct (ch !! p); [apply IH | done].
Qed.

Lemma node_at_snoc (a : list string) (k : string) (t n : FileSystemNode) :
  node_at (a ++ [k]) t = Some n ->
  exists ch, node_at a t = Some (FolderNode ch) /\ ch !! k = Some n.
Proof.
  rewrite node_at_app. destruct (node_at a t) as [[c | ch] |]; simpl; try done.
  destruct (ch !! k) eqn:E; [| done]. intros [= ->]. by exists ch.
Qed.

Lemma node_at_prefix (a b : list string) (t : FileSystemNode) :
  is_Some (node_at (a ++ b) t) -> is_Some (node_at a t).
Proof. rewrite node_at_app. destruct (node_at a t); [by eexists | by intros [? ?]]. Qed.

(** Over names that all resolve, the loop of [traversePath] creates
    nothing and ends at the last of them. *)
Lemma walk_existing (createParents : bool) (tree : FileSystemNode)
    (parts cur : list string) :
  is_Some (node_at (cur ++ parts) tree) ->
  walk createParents tree cur parts = (tree, Some (cur ++ parts)).
Proof.
  revert cur; induction parts as [|p rest IH]; intros cur H; simpl.
  - by rewrite app_nil_r.
  - replace (cur ++ p :: rest) with ((cur ++ [p]) ++ rest) in * by (by rewrite <- app_assoc).
    pose proof (node_at_prefix _ _ _ H) as [n Hn].
    apply node_at_snoc in Hn as (ch & -> & ->). by apply IH.
Qed.

(** Where a file stands on the way, the loop returns the null record and
    creates nothing. *)
Lemma walk_blocked (createParents : bool) (tree : FileSystemNode) (x : string)
    (pre : list string) (q : string) (post cur : list string) :
  node_at (cur ++ pre) tree = Some (FileNode x) ->
  walk createParents tree cur (pre ++ q :: post) = (tree, None).
Proof.
  revert cur; induction pre as [|p pre IH]; intros cur H; simpl.
  - rewrite app_nil_r in H. by rewrite H.
  - replace (cur ++ p :: pre) with ((cur ++ [p]) ++ pre) in H by (by rewrite <- app_assoc).
    assert (is_Some (node_at (cur ++ [p]) tree)) as [n Hn]
      by (eapply node_at_prefix; by rewrite H).
    apply node_at_snoc in Hn as (ch & -> & ->). by apply IH.
Qed.

Lemma removelast_snoc (l : list string) (k : string) : removelast (l ++ [k]) = l.
Proof. by rewrite removelast_app, app_nil_r. Qed.

Lemma last_snoc (l : list string) (k d : string) : List.last (l ++ [k]) d = k.
Proof. apply last_last. Qed.

Lemma snoc_not_nil (l : list string) (k : string) : l ++ [k] <> [].
Proof. by destruct l. Qed.

(** Every name of a path is a non-empty string. *)
Lemma path_parts_truthy (path : string) (init : list string) (k : string) :
  path_parts path = init ++ [k] -> Str.truthy k = true.
Proof.
  intros H. assert (In k (path_parts path)) as Hin
    by (rewrite H; apply in_or_app; right; by left).
  unfold path_parts in Hin. by apply filter_In in Hin as [_ ?].
Qed.

(** [traversePath] on a path whose parent folder exists. *)
Lemma traversePath_existing (createParents : bool) (tree : FileSystemNode)
    (path : string) (init : list string) (k : string)
    (ch : gmap string FileSystemNode) :
  path_parts path = init ++ [k] ->
  node_at init tree = Some (FolderNode ch) ->
  traversePath tree path createParents
  = (tree, {| parent := Some init; node := ch !! k; key := k |}).
Proof.
  intros Hp Hn. unfold traversePath. rewrite Hp.
  destruct (init ++ [k]) eqn:E; [by destruct init |]. rewrite <- E.
  rewrite removelast_snoc, last_snoc.
  rewrite (walk_existing createParents tree init []) by (simpl; by rewrite Hn).
  simpl. by rewrite Hn.
Qed.

(** [traversePath] on a path that runs through a file. *)
Lemma traversePath_blocked (createParents : bool) (tree : FileSystemNode)
    (path x : string) (pre : list string) (q : string) (post : list string) :
  path_parts path = pre ++ q :: post ->
  node_at pre tree = Some (FileNode x) ->
  traversePath tree path createParents = (tree, not_found).
Proof.
  intros Hp Hn. unfold traversePath. rewrite Hp.
  destruct (pre ++ q :: post) eqn:E; [by destruct pre |]. rewrite <- E.
  destruct post as [|k post _] using rev_ind.
  - rewrite removelast_snoc.
    rewrite (walk_existing createParents tree pre []) by (simpl; by rewrite Hn).
    simpl. by rewrite Hn.
  - replace (pre ++ q :: post ++ [k]) with ((pre ++ q :: post) ++ [k])
      by (by rewrite <- app_assoc).
    rewrite removelast_snoc.
    by rewrite (walk_blocked createParents tree x pre q post []).
Qed.

(** Without [createParents] the loop never changes the tree. *)
Lemma walk_read_only (tree : FileSystemNode) (parts cur : list string) :
  fst (walk false tree cur parts) = tree.
Proof.
  revert cur; induction parts as [|p rest IH]; intros cur; simpl; [done |].
  destruct (node_at cur tree) as [[c | ch] |]; try done.
  destruct (ch !! p); [apply IH | done].
Qed.

Lemma traversePath_read_only (tree : FileSystemNode) (path : string) :
  fst (traversePath tree path false) = tree.
Proof.
  unfold traversePath. destruct (path_parts path) as [|p l]; [done |].
  pose proof (walk_read_only tree (removelast (p :: l)) []) as H.
  destruct (walk false tree [] (removelast (p :: l))) as [t [a |]]; simpl in *; subst.
  - by destruct (node_at a tree) as [[c | ch] |].
  - done.
Qed.

(** The node written through [parent.children[key] = v] is the one found
    under that name afterwards. *)
Lemma node_at_set_child (cur : list string) (k : string) (v : FileSystemNode)
    (tree : FileSystemNode) (ch : gmap string FileSystemNode) :
  node_at cur tree = Some (FolderNode ch) ->
  node_at (cur ++ [k]) (set_child cur k v tree) = Some v.
Proof.
  revert tree; induction cur as [|c cur IH]; intros tree H; simpl in *.
  - injection H as ->. simpl. by rewrite lookup_insert_eq.
  - destruct tree as [x | ch0]; [done |].
    destruct (ch0 !! c) as [child |] eqn:E; [| done].
    unfold set_child. simpl. rewrite E. simpl.
    rewrite lookup_insert_eq. by apply IH.
Qed.

(** From an empty folder on, the loop with [createParents] creates every
    name and ends in an empty folder. *)
Lemma walk_fresh (parts cur : list string) (tree : FileSystemNode) :
  node_at cur tree = Some (FolderNode ∅) ->
  exists t', walk true tree cur parts = (t', Some (cur ++ parts))
             /\ node_at (cur ++ parts) t' = Some (FolderNode ∅).
Proof.
  revert cur tree; induction parts as [|p rest IH]; intros cur tree H; simpl.
  - exists tree. by rewrite app_nil_r.
  - rewrite H, lookup_empty.
    destruct (IH (cur ++ [p]) (set_child cur p (FolderNode ∅) tree)) as (t' & Hw & Hn).
    { by eapply node_at_set_child. }
    exists t'. by rewrite <- app_assoc in Hw, Hn.
Qed.

(** The loop with [createParents] either leaves the tree as it is, or it
    created folders and ends in an empty folder. *)
Lemma walk_create (tree : FileSystemNode) (parts cur : list string) :
  forall t' r, walk true tree cur parts = (t', r) ->
    t' = tree
    \/ (r = Some (cur ++ parts) /\ node_at (cur ++ parts) t' = Some (FolderNode ∅)).
Proof.
  revert cur; induction parts as [|p rest IH]; intros cur t' r; simpl.
  - intros [= <- <-]. by left.
  - destruct (node_at cur tree) as [[c | ch] |] eqn:E; try (intros [= <- <-]; by left).
    destruct (ch !! p) eqn:Ep.
    + intros H. apply IH in H. by rewrite <- app_assoc in H.
    + intros H. right.
      destruct (walk_fresh rest (cur ++ [p]) (set_child cur p (FolderNode ∅) tree))
        as (t'' & Hw & Hn).
      { by eapply node_at_set_child. }
      rewrite Hw in H. injection H as <- <-. by rewrite <- app_assoc in *.
Qed.

(** When [traversePath] with [createParents] returns no parent, it has
    created nothing. *)
Lemma traversePath_create_fails (tree : FileSystemNode) (path : string) :
  parent (snd (traversePath tree path true)) = None ->
  fst (traversePath tree path true) = tree.
Proof.
  unfold traversePath. destruct (path_parts path) as [|p l]; [done |].
  destruct (walk true tree [] (removelast (p :: l))) as [t' r] eqn:E.
  apply walk_create in E as [-> | [-> Hn]].
  - destruct r as [a |]; [| done]. by destruct (node_at a tree) as [[c | ch] |].
  - by rewrite Hn.
Qed.

(** A parent returned by [traversePath] comes with a non-empty key. *)
Lemma traversePath_key (tree : FileSystemNode) (path : string) (createParents : bool) :
  is_Some (parent (snd (traversePath tree path createParents))) ->
  Str.truthy (key (snd (traversePath tree path createParents))) = true.
Proof.
  unfold traversePath.
  destruct (path_parts path) as [|k init _] eqn:E using rev_ind;
    [by intros [? ?] |].
  destruct (init ++ [k]) eqn:E'; [by destruct init |]. rewrite <- E' in *.
  rewrite last_snoc.
  destruct (walk createParents tree [] (removelast (init ++ [k]))) as [t' [a |]];
    [| by intros [? ?]].
  destruct (node_at a t') as [[c | ch] |]; try (by intros [? ?]).
  intros _. simpl. by eapply path_parts_truthy.
Qed.

(** What the three creating operations have in common: they throw exactly
    when [traversePath] returns no parent, and then nothing was created. *)
Lemma creating_operation_fails (tree : FileSystemNode) (path : string)
    (t t' : FileSystemNode) (r : Traversal) (e : string)
    (write : list string -> string -> FileSystemNode -> FileSystemNode) (msg : string) :
  traversePath tree path true = (t, r) ->
  match parent r with
  | Some p => if Str.truthy (key r) then (write p (key r) t, None) else (t, Some msg)
  | None => (t, Some msg)
  end = (t', Some e) ->
  t' = tree.
Proof.
  intros Ht H.
  pose proof (traversePath_create_fails tree path) as Hf.
  pose proof (traversePath_key tree path true) as Hk.
  rewrite Ht in Hf, Hk. cbn [fst snd] in Hf, Hk.
  destruct (parent r) as [a |].
  - rewrite Hk in H by (by eexists). done.
  - injection H as <- _. by apply Hf.
Qed.

(** Failure isolation, as far as the code has it: an operation that throws
    leaves the tree as it was, unless it is a rename that threw on its
    destination. *)
Lemma failed_operation_has_no_effect (tree : FileSystemNode) (op : FileOperation)
    (t' : FileSystemNode) (e : string) :
  apply_operation tree op = (t', Some e) ->
  is_rename op = false
  \/ e <> "Invalid destination path for RENAME: " +:+ default "" (newPath op) ->
  t' = tree.
Proof.
  unfold apply_operation, is_rename.
  destruct (operation op); intros H Hr.
  1, 2:
    destruct (traversePath tree (path op) true) as [t r] eqn:Ht;
    by eapply (creating_operation_fails tree (path op) t t' r e
                 (fun p k => set_child p k (FileNode (default "" (content op))))).
  2: { destruct (traversePath tree (path op) true) as [t r] eqn:Ht.
       eapply (creating_operation_fails tree (path op) t t' r e
                 (fun p k t => match node_at (p ++ [k]) t with
                               | None => set_child p k (FolderNode ∅) t
                               | Some _ => t
                               end)); [done |].
       destruct (parent r); [| done].
       destruct (Str.truthy (key r)); [| done].
       by destruct (node_at _ t). }
  1, 2:
    destruct (traversePath tree (path op) false) as [t r];
    destruct (parent r); [| done]; destruct (node r); [| done];
    by destruct (Str.truthy (key r)).
  all:
    destruct (newPath op) as [np |]; [| by injection H as <- _];
    destruct (Str.truthy np); cbn [negb] in H; [| by injection H as <- _];
    pose proof (traversePath_read_only tree (path op)) as Hf;
    destruct (traversePath tree (path op) false) as [t r]; cbn [fst] in Hf; subst t;
    destruct (parent r) as [a |]; [| by injection H as <- _];
    destruct (node r) as [n |]; [| by injection H as <- _];
    destruct (Str.truthy (key r)); [| by injection H as <- _];
    destruct (traversePath (delete_child a (key r) tree) np true) as [t2 r2];
    destruct Hr as [? | Hr]; [done |];
    cbn [default] in Hr;
    destruct (parent r2); [destruct (Str.truthy (key r2)); [done |] |];
    by injection H as _ <-.
Qed.

Lemma apply_loop_app (tree : FileSystemNode) (a b : list FileOperation) :
  apply_loop tree (a ++ b)
  = (fst (apply_loop (fst (apply_loop tree a)) b),
     snd (apply_loop tree a) ++ snd (apply_loop (fst (apply_loop tree a)) b)).
Proof.
  revert tree; induction a as [|op a IH]; intros tree.
  - simpl. by destruct (apply_loop tree b).
  - cbn [apply_loop app]. destruct (apply_operation tree op) as [t thrown].
    rewrite IH. destruct (apply_loop t a) as [t1 l1]. cbn [fst snd].
    destruct (apply_loop t1 b) as [t2 l2]. cbn [fst snd]. by destruct thrown.
Qed.

(** The batch goes on after a failure, and an operation that fails without
    being a rename that threw on its destination can be left out of the
    batch: the resulting tree is the same. *)
Lemma failed_operation_is_skipped (tree : FileSystemNode) (pre post : list FileOperation)
    (op : FileOperation) (t' : FileSystemNode) (e : string) :
  apply_operation (applyFileOperations tree pre) op = (t', Some e) ->
  is_rename op = false
  \/ e <> "Invalid destination path for RENAME: " +:+ default "" (newPath op) ->
  applyFileOperations tree (pre ++ op :: post) = applyFileOperations tree (pre ++ post)
  /\ In (op, e) (snd (applyFileOperations_log tree (pre ++ op :: post))).
Proof.
  intros Hop Hr. pose proof (failed_operation_has_no_effect _ _ _ _ Hop Hr) as ->.
  unfold applyFileOperations, applyFileOperations_log, deep_clone in *.
  rewrite !apply_loop_app. cbn [fst snd apply_loop]. rewrite Hop.
  destruct (apply_loop (fst (apply_loop tree pre)) post) as [t2 l2]. cbn [fst snd].
  split; [done |]. apply in_or_app. right. by left.
Qed.

(** C4, as the code has it. For every tree, [CREATE_FOLDER] changes nothing
    and reports no failure when a node, folder or file, already exists at the
    path; it is reported as the failure of that operation, with the tree
    unchanged, when the path is invalid: it has no name, or it runs through
    a file. *)
Theorem create_folder_existing_or_invalid (tree : FileSystemNode) (op : FileOperation) :
  operation op = CREATE_FOLDER ->
  (path_parts (path op) <> [] -> is_Some (findNodeByPath (path op) tree) ->
     applyFileOperations_log tree [op] = (tree, []))
  /\ (invalid_path tree (path op) ->
        applyFileOperations_log tree [op]
        = (tree, [(op, "Invalid path for CREATE_FOLDER: " +:+ path op)])).
Proof.
  intros Hop. unfold applyFileOperations_log, deep_clone, apply_loop, apply_operation.
  rewrite Hop. split.
  - intros Hne [n Hn]. unfold findNodeByPath in Hn.
    destruct (path_parts (path op)) as [|k init _] eqn:E using rev_ind; [done |].
    pose proof (node_at_snoc _ _ _ _ Hn) as (ch & Hch & Hk).
    rewrite (traversePath_existing true tree (path op) init k ch E Hch). simpl.
    by rewrite (path_parts_truthy _ _ _ E), Hn.
  - intros [Hnil | (pre & q & post & x & Hp & Hx)].
    + unfold traversePath. by rewrite Hnil.
    + by rewrite (traversePath_blocked true tree (path op) x pre q post Hp Hx).
Qed.

Lemma create_folder_existing_or_invalid_witness :
  applyFileOperations_log sample_tree [create_folder "src"] = (sample_tree, [])
  /\ applyFileOperations_log sample_tree [create_folder "README.md/docs"]
     = (sample_tree,
        [(create_folder "README.md/docs",
          "Invalid path for CREATE_FOLDER: README.md/docs")]).
Proof.
  split.
  - apply (proj1 (create_folder_existing_or_invalid sample_tree (create_folder "src")
                    eq_refl)).
    + vm_compute. discriminate.
    + vm_compute. eexists. reflexivity.
  - apply (proj2 (create_folder_existing_or_invalid sample_tree
                    (create_folder "README.md/docs") eq_refl)).
    right. exists ["README.md"], "docs", [], "notes". split; reflexivity.
Defined.

(** C4, where the claim fails: a file occupies [src/App.tsx], yet
    [CREATE_FOLDER] on that path reports no failure; it is skipped
    silently. *)
Lemma create_folder_over_file_is_silent :
  findNodeByPath "src/App.tsx" sample_tree = Some (FileNode "function App() {}")
  /\ applyFileOperations_log sample_tree [create_folder "src/App.tsx"]
     = (sample_tree, []).
Proof. split; vm_compute; reflexivity. Qed.

(** C1, at an input where the code departs from it. The batch renames
    [src/App.tsx] to [README.md/App.tsx], whose parent is a file, and then
    creates [src/b.ts]. The rename is reported as failed and the creation
    still runs, but the rename has already deleted its source when it throws:
    [src/App.tsx] is gone from the result, which therefore differs from the
    result of the valid operation alone. *)
Theorem failed_rename_deletes_source :
  snd (applyFileOperations_log sample_tree [bad_rename; good_create])
  = [(bad_rename, "Invalid destination path for RENAME: README.md/App.tsx")]
  /\ findNodeByPath "src/b.ts" (applyFileOperations sample_tree [bad_rename; good_create])
     = Some (FileNode "export {}")
  /\ findNodeByPath "src/App.tsx" (applyFileOperations sample_tree [bad_rename; good_create])
     = None
  /\ findNodeByPath "src/App.tsx" (applyFileOperations sample_tree [good_create])
     = Some (FileNode "function App() {}")
  /\ applyFileOperations sample_tree [bad_rename; good_create]
     <> applyFileOperations sample_tree [good_create].
Proof.
  assert (findNodeByPath "src/App.tsx"
            (applyFileOperations sample_tree [bad_rename; good_create]) = None)
    as Hgone by (vm_compute; reflexivity).
  assert (findNodeByPath "src/App.tsx" (applyFileOperations sample_tree [good_create])
          = Some (FileNode "function App() {}")) as Hkept by (vm_compute; reflexivity).
  split; [vm_compute; reflexivity |].
  split; [vm_compute; reflexivity |].
  split; [exact Hgone |]. split; [exact Hkept |].
  intros Heq. rewrite Heq, Hkept in Hgone. discriminate.
Qed.

End FSFacts.

(** ** The task lifecycle *)
Module AppFacts.
Import Str Spec Samples StrFacts Framer App.

Lemma in_task_become (taskId : string) (P : AITask -> Prop) (f : AITask -> AITask)
    (ws : Workspace) :
  (forall t, id (f t) = id t) -> (forall t, P (f t)) ->
  tasks_become taskId P (tasks ws) (tasks (in_task taskId f ws)).
Proof.
  intros Hid HP. split; [simpl; by rewrite length_fmap |].
  intros j task Hj. simpl. rewrite list_lookup_fmap, Hj. simpl.
  destruct (String.eqb (id task) taskId) eqn:E; [| done].
  eexists. split; [done |]. split; [| apply HP].
  rewrite Hid. by apply String.eqb_eq.
Qed.

Lemma in_workspace_result (active taskId : string) (P : AITask -> Prop)
    (fs : FileSystemNode -> FileSystemNode) (f : Workspace -> Workspace)
    (prev : list Workspace) :
  (forall ws, ws_id (f ws) = ws_id ws) ->
  (forall ws, fileSystem (f ws) = fs (fileSystem ws)) ->
  (forall ws, tasks_become taskId P (tasks ws) (tasks (f ws))) ->
  round_result active taskId P fs prev (in_workspace active f prev).
Proof.
  intros Hid Hfs Ht. split; [unfold in_workspace; by rewrite length_fmap |].
  intros i ws Hi. unfold in_workspace. rewrite list_lookup_fmap, Hi. simpl.
  destruct (String.eqb (ws_id ws) active) eqn:E.
  - eexists. split; [done |]. by rewrite Hid.
  - by eexists.
Qed.

Lemma tasks_become_trans (taskId : string) (P Q : AITask -> Prop)
    (a b c : list AITask) :
  tasks_become taskId P a b -> tasks_become taskId Q b c -> tasks_become taskId Q a c.
Proof.
  intros [Hl1 H1] [Hl2 H2]. split; [congruence |].
  intros j task Hj. specialize (H1 j task Hj).
  destruct (String.eqb (id task) taskId) eqn:E.
  - destruct H1 as (t' & Ht' & Hid & _). specialize (H2 j t' Ht').
    apply String.eqb_eq in Hid as Hid'. by rewrite Hid' in H2.
  - specialize (H2 j task H1). by rewrite E in H2.
Qed.

Lemma round_result_trans (active taskId : string) (P Q : AITask -> Prop)
    (f g : FileSystemNode -> FileSystemNode) (a b c : list Workspace) :
  round_result active taskId P f a b -> round_result active taskId Q g b c ->
  round_result active taskId Q (fun t => g (f t)) a c.
Proof.
  intros [Hl1 H1] [Hl2 H2]. split; [congruence |].
  intros i ws Hi. destruct (H1 i ws Hi) as (ws1 & Hi1 & Hid1 & Hr1).
  destruct (H2 i ws1 Hi1) as (ws2 & Hi2 & Hid2 & Hr2).
  exists ws2. split; [done |]. split; [congruence |].
  rewrite Hid1 in Hr2.
  destruct (String.eqb (ws_id ws) active).
  - destruct Hr1 as [Hf1 Ht1], Hr2 as [Hf2 Ht2]. split; [congruence |].
    by eapply tasks_become_trans.
  - congruence.
Qed.

(** The updates published while the stream runs touch no tree and keep
    every task in place. *)
Lemma stream_chunks_result (active taskId : string) (chunks : list string)
    (b : Buffer) (prev : list Workspace) :
  round_result active taskId (fun _ => True) (fun t => t) prev
    (snd (stream_chunks active taskId b chunks prev))
  /\ fst (stream_chunks active taskId b chunks prev) = feed_all b chunks.
Proof.
  revert b prev; induction chunks as [|c rest IH]; intros b prev.
  - split; [| done]. split; [done |]. intros i ws Hi. exists ws. simpl.
    split; [done |]. split; [done |].
    destruct (String.eqb (ws_id ws) active); [| done]. split; [done |].
    split; [done |]. intros j task Hj.
    destruct (String.eqb (id task) taskId) eqn:E; [| done].
    exists task. by apply String.eqb_eq in E.
  - simpl. destruct (IH (feed b c)
      (in_workspace active (in_task taskId (show_chunk (shown (feed b c)))) prev))
      as [Hr Hb].
    split; [| done].
    eapply (round_result_trans _ _ (fun _ => True) (fun _ => True) (fun t => t) (fun t => t));
      [| exact Hr].
    apply in_workspace_result; try done.
    intros ws. by apply in_task_become.
Qed.

Lemma indexOf_not_occurs (sep s : string) : ~ occurs sep s -> indexOf s sep = -1.
Proof.
  intros H. destruct (decide (indexOf s sep = -1)) as [| Hn]; [done |].
  by apply indexOf_found in Hn.
Qed.

Lemma kind_blueprint (text : string) :
  occurs blueprintSeparator text -> payload_kind text = Some Blueprint.
Proof. by intros (k & _ & ? & _)%FramerFacts.blueprint_found. Qed.

Lemma kind_operations (text : string) :
  ~ occurs blueprintSeparator text -> occurs opsSeparator text ->
  payload_kind text = Some Operations.
Proof.
  intros Hb%indexOf_not_occurs (k & Hk & _)%indexOf_occurs.
  unfold payload_kind. rewrite Hb, Hk. simpl.
  by destruct k.
Qed.

Lemma kind_none (text : string) :
  ~ occurs blueprintSeparator text -> ~ occurs opsSeparator text ->
  payload_kind text = None.
Proof.
  intros Hb%indexOf_not_occurs Ho%indexOf_not_occurs.
  unfold payload_kind. by rewrite Hb, Ho.
Qed.

Section Decode.

Variable JSON_parse : string -> Completion json.
Variable as_FileOperations : json -> list FileOperation.

#[local] Abbreviation decode := (App.decode JSON_parse as_FileOperations).
#[local] Abbreviation finish := (App.finish JSON_parse as_FileOperations).

Lemma decode_blueprint (text : string) (isAutoPilot : bool) (o : Outcome) :
  payload_kind text = Some Blueprint -> decode text isAutoPilot = Normal o ->
  fileOps o = [] /\ final_status o = pending_blueprint_approval
  /\ exists v, blueprint o = Some v.
Proof.
  unfold App.decode. intros ->.
  destruct (JSON_parse _); [| done]. intros [= <-]. simpl. eauto.
Qed.

Lemma decode_operations (text : string) (isAutoPilot : bool) (o : Outcome) :
  payload_kind text = Some Operations -> decode text isAutoPilot = Normal o ->
  blueprint o = None
  /\ final_status o = (if isAutoPilot then completed else pending_confirmation).
Proof.
  unfold App.decode. intros ->.
  destruct (parse_operations _ _ _); [| done]. by intros [= <-].
Qed.

Lemma decode_none (text : string) (isAutoPilot : bool) (o : Outcome) :
  payload_kind text = None -> decode text isAutoPilot = Normal o ->
  fileOps o = [] /\ blueprint o = None /\ final_status o = completed.
Proof. unfold App.decode. intros ->. by intros [= <-]. Qed.

(** The update published on completion, as a round result. *)
Lemma publish_result (active taskId : string) (isAutoPilot : bool) (o : Outcome)
    (prev : list Workspace) :
  round_result active taskId
    (fun t => status t = final_status o
              /\ (response_operations <$> assistantResponse t) = Some (Some (fileOps o)))
    (fun fs => if isAutoPilot then FS.applyFileOperations fs (fileOps o) else fs)
    prev (in_workspace active (publish taskId isAutoPilot o) prev).
Proof.
  apply in_workspace_result; try done.
  - intros ws. unfold publish. simpl. destruct isAutoPilot; [| done]. simpl.
    by destruct (fileOps o).
  - intros ws. unfold publish. cbn [tasks]. by apply in_task_become.
Qed.

Lemma round_result_weaken (active taskId : string) (P Q : AITask -> Prop)
    (f g : FileSystemNode -> FileSystemNode) (prev next : list Workspace) :
  (forall t, P t -> Q t) -> (forall fs, f fs = g fs) ->
  round_result active taskId P f prev next -> round_result active taskId Q g prev next.
Proof.
  intros HPQ Hfg [Hl H]. split; [done |]. intros i ws Hi.
  destruct (H i ws Hi) as (ws' & ? & ? & Hr). exists ws'. split; [done |]. split; [done |].
  destruct (String.eqb (ws_id ws) active); [| done].
  destruct Hr as [Hfs [Hlt Ht]]. split; [by rewrite <- Hfg |]. split; [done |].
  intros j task Hj. specialize (Ht j task Hj).
  destruct (String.eqb (id task) taskId); [| done].
  destruct Ht as (t' & ? & ? & ?). exists t'. eauto.
Qed.

(** A round that nothing interleaves with ends in [finish] on the
    concatenation of its chunks. *)
Lemma runAIGeneration_finish (st : AppState) (stream : Stream) (active taskId : string)
    (isAutoPilot : bool) :
  truthy_id (activeWorkspaceId st) = Some active ->
  is_Some (find_workspace active (workspaces st)) ->
  failure stream = None ->
  workspaces (runAIGeneration JSON_parse as_FileOperations st stream taskId isAutoPilot)
  = finish active taskId isAutoPilot (join (chunks stream))
      (snd (stream_chunks active taskId initial (chunks stream) (workspaces st))).
Proof.
  intros Ha [w Hw] Hf. unfold runAIGeneration. rewrite Ha, Hw, Hf.
  pose proof (stream_chunks_result active taskId (chunks stream) initial (workspaces st))
    as [_ Hb].
  destruct (stream_chunks _ _ _ _ _) as [b streamed]. simpl in *.
  by rewrite Hb, FramerFacts.feed_all_initial.
Qed.

(** A whole round inherits what [finish] guarantees on any published
    workspaces: the updates made while the stream runs change no tree and
    keep every task in place. *)
Lemma runAIGeneration_round (st : AppState) (stream : Stream) (active taskId : string)
    (isAutoPilot : bool) (P : AITask -> Prop) (f : FileSystemNode -> FileSystemNode) :
  truthy_id (activeWorkspaceId st) = Some active ->
  is_Some (find_workspace active (workspaces st)) ->
  failure stream = None ->
  (forall prev, round_result active taskId P f prev
                  (finish active taskId isAutoPilot (join (chunks stream)) prev)) ->
  round_result active taskId P f (workspaces st)
    (workspaces (runAIGeneration JSON_parse as_FileOperations st stream taskId isAutoPilot)).
Proof.
  intros Ha Hw Hf Hfin. rewrite (runAIGeneration_finish st stream active) by done.
  pose proof (stream_chunks_result active taskId (chunks stream) initial (workspaces st))
    as [Hs _].
  exact (round_result_trans _ _ _ _ _ _ _ _ _ Hs (Hfin _)).
Qed.

(** Which rounds run with [isAutoPilot]: those of the scheduler, and no
    others. *)
Remark round_flags (st : AppState) (userPrompt taskId : string) (stream : Stream) :
  handleAutoPilotTick JSON_parse as_FileOperations st taskId stream
  = match handleAutoPilotTick_start st taskId with
    | Some st' => runAIGeneration JSON_parse as_FileOperations st' stream taskId true
    | None => st
    end
  /\ handleCreateTask JSON_parse as_FileOperations st userPrompt taskId stream
     = match handleCreateTask_start st userPrompt taskId with
       | Some st' => runAIGeneration JSON_parse as_FileOperations st' stream taskId false
       | None => st
       end
  /\ handleApproveBlueprint JSON_parse as_FileOperations st taskId stream
     = match handleApproveBlueprint_start st taskId with
       | Some st' => runAIGeneration JSON_parse as_FileOperations st' stream taskId false
       | None => st
       end.
Proof.
  unfold handleAutoPilotTick, handleCreateTask, handleApproveBlueprint.
  repeat split; by case_match.
Qed.

(** C2, as the code has it. When the decoding of the complete text does not
    throw: if the blueprint marker occurs, every task of the round becomes
    [pending_blueprint_approval] and no tree changes; else if the operations
    marker occurs, a round started with [isAutoPilot] (the scheduler's rounds)
    applies the batch to the tree at once and completes the task, and a round
    started without it (a user prompt, or the approval of a blueprint, whatever
    the origin of the task) leaves the tree alone and the task
    [pending_confirmation], holding the batch; with no marker the task is
    [completed] and no tree changes. *)
Theorem completion_by_marker_and_round (active taskId : string) (isAutoPilot : bool)
    (text : string) (prev : list Workspace) (o : Outcome) :
  decode text isAutoPilot = Normal o ->
  (occurs blueprintSeparator text ->
     round_result active taskId
       (fun t => status t = pending_blueprint_approval) (fun fs => fs)
       prev (finish active taskId isAutoPilot text prev))
  /\ (~ occurs blueprintSeparator text -> occurs opsSeparator text ->
        round_result active taskId
          (fun t => status t = (if isAutoPilot then completed else pending_confirmation)
                    /\ (response_operations <$> assistantResponse t)
                       = Some (Some (fileOps o)))
          (fun fs => if isAutoPilot then FS.applyFileOperations fs (fileOps o) else fs)
          prev (finish active taskId isAutoPilot text prev))
  /\ (~ occurs blueprintSeparator text -> ~ occurs opsSeparator text ->
        round_result active taskId (fun t => status t = completed) (fun fs => fs)
          prev (finish active taskId isAutoPilot text prev)).
Proof.
  intros Hd. unfold App.finish. rewrite Hd.
  pose proof (publish_result active taskId isAutoPilot o prev) as Hp.
  split; [| split].
  - intros Hk%kind_blueprint.
    destruct (decode_blueprint _ _ _ Hk Hd) as (Hops & Hs & _).
    eapply round_result_weaken; [| | exact Hp].
    + intros t [Ht _]. by rewrite Ht.
    + intros fs. simpl. rewrite Hops. by destruct isAutoPilot.
  - intros Hb Ho. pose proof (kind_operations _ Hb Ho) as Hk.
    destruct (decode_operations _ _ _ Hk Hd) as (_ & Hs).
    eapply round_result_weaken; [| | exact Hp]; [| done].
    intros t [Ht ?]. by rewrite Ht, Hs.
  - intros Hb Ho. pose proof (kind_none _ Hb Ho) as Hk.
    destruct (decode_none _ _ _ Hk Hd) as (Hops & _ & Hs).
    eapply round_result_weaken; [| | exact Hp].
    + intros t [Ht _]. by rewrite Ht.
    + intros fs. simpl. rewrite Hops. by destruct isAutoPilot.
Qed.

(** Whatever [decode] throws ends as the error of the task. *)
Lemma thrown_is_recorded (active taskId : string) (isAutoPilot : bool) (text : string)
    (prev : list Workspace) (reason : string) :
  decode text isAutoPilot = Throw reason ->
  round_result active taskId
    (fun t => status t = error /\ task_error t = Some reason) (fun fs => fs)
    prev (finish active taskId isAutoPilot text prev).
Proof.
  intros Hd. unfold App.finish. rewrite Hd.
  apply in_workspace_result; try done.
  intros ws. by apply in_task_become.
Qed.

(** C7. When [JSON.parse] throws on the payload after the winning marker,
    the round still ends in a state: every task of the round is in status
    [error] and keeps, as its error, a message made of the kind of payload
    that failed and the parser's own message; no tree changes. This holds for
    the completion step on any published workspaces, and for a whole round of
    [runAIGeneration] from any state. *)
Theorem parse_failure_becomes_task_error (active taskId : string) (isAutoPilot : bool)
    (text : string) (raw m : string) :
  winning_payload text = Some raw ->
  JSON_parse (Decoder.jsonString raw) = Throw m ->
  exists reason,
    decode text isAutoPilot = Throw reason
    /\ (reason = "Failed to parse blueprint from AI. " +:+ m
        \/ reason = "Failed to parse file operations from AI. " +:+ m)
    /\ (forall prev,
          round_result active taskId
            (fun t => status t = error /\ task_error t = Some reason) (fun fs => fs)
            prev (finish active taskId isAutoPilot text prev))
    /\ (forall st stream,
          truthy_id (activeWorkspaceId st) = Some active ->
          is_Some (find_workspace active (workspaces st)) ->
          failure stream = None -> join (chunks stream) = text ->
          round_result active taskId
            (fun t => status t = error /\ task_error t = Some reason) (fun fs => fs)
            (workspaces st)
            (workspaces (runAIGeneration JSON_parse as_FileOperations st stream taskId
                           isAutoPilot))).
Proof.
  unfold winning_payload. intros Hw Hp.
  assert (exists reason, decode text isAutoPilot = Throw reason
            /\ (reason = "Failed to parse blueprint from AI. " +:+ m
                \/ reason = "Failed to parse file operations from AI. " +:+ m))
    as (reason & Hd & Hr).
  { unfold App.decode, parse_operations.
    destruct (payload_kind text) as [[|] |]; [| | done]; injection Hw as <-;
      rewrite Hp; eauto. }
  exists reason. split; [done |]. split; [done |].
  assert (forall prev,
            round_result active taskId
              (fun t => status t = error /\ task_error t = Some reason) (fun fs => fs)
              prev (finish active taskId isAutoPilot text prev)) as Hfin
    by (intros prev; by apply thrown_is_recorded).
  split; [done |].
  intros st stream Ha Hws Hf <-. by apply runAIGeneration_round.
Qed.

(** C10, as the code has it. When the operations payload parses to a value
    other than [null] that has no [operations] member, or whose member is
    [null], decoding gives the empty batch: the task becomes
    [pending_confirmation], or [completed] in a scheduler round, never
    [error], and no tree changes. *)
Theorem missing_operations_is_empty_batch (active taskId : string) (isAutoPilot : bool)
    (text : string) (prev : list Workspace) (v : json) :
  ~ occurs blueprintSeparator text -> occurs opsSeparator text ->
  JSON_parse (Decoder.jsonString
                (payload_after text (indexOf text opsSeparator) opsSeparator))
  = Normal v ->
  no_operations v ->
  exists o,
    decode text isAutoPilot = Normal o
    /\ fileOps o = []
    /\ round_result active taskId
         (fun t => status t = (if isAutoPilot then completed else pending_confirmation)
                   /\ (response_operations <$> assistantResponse t) = Some (Some []))
         (fun fs => fs) prev (finish active taskId isAutoPilot text prev).
Proof.
  intros Hb Ho Hp Hv. pose proof (kind_operations _ Hb Ho) as Hk.
  assert (parse_operations JSON_parse as_FileOperations
            (Decoder.jsonString
               (payload_after text (indexOf text opsSeparator) opsSeparator))
          = Normal []) as Hops.
  { unfold parse_operations. rewrite Hp.
    destruct v as [| | | | |members]; try done.
    simpl in *. by destruct Hv as [-> | ->]. }
  eexists. split; [| split].
  - unfold App.decode. rewrite Hk, Hops. reflexivity.
  - done.
  - destruct (completion_by_marker_and_round active taskId isAutoPilot text prev
                _ ltac:(unfold App.decode; rewrite Hk, Hops; reflexivity))
      as (_ & H & _).
    eapply round_result_weaken; [| | exact (H Hb Ho)]; [done |].
    intros fs. simpl. by destruct isAutoPilot.
Qed.

(** C6. In a text where both markers occur, wherever they stand, the payload
    kind is the blueprint; the conversational part is the text before the
    first blueprint marker; and the decoded outcome holds a blueprint and no
    operations, with the task awaiting the approval of the blueprint. *)
Theorem blueprint_marker_wins (text : string) :
  occurs blueprintSeparator text -> occurs opsSeparator text ->
  payload_kind text = Some Blueprint
  /\ (exists rest, text = conversationalPart text +:+ blueprintSeparator +:+ rest)
  /\ (forall a b, text = a +:+ blueprintSeparator +:+ b ->
        (String.length (conversationalPart text) <= String.length a)%nat)
  /\ (forall isAutoPilot o, decode text isAutoPilot = Normal o ->
        fileOps o = [] /\ final_status o = pending_blueprint_approval
        /\ (exists v, blueprint o = Some v)
        /\ finalConversationalPart o = trim (conversationalPart text)).
Proof.
  intros Hb _.
  destruct (FramerFacts.blueprint_found _ Hb) as (k & Hi & Hk & Hc & Hl & Hr & Hm).
  split; [done |]. rewrite Hc. split; [done |]. split.
  - intros a b Hab. rewrite Hl. by eapply Hm.
  - intros isAutoPilot o Hd.
    destruct (decode_blueprint _ _ _ Hk Hd) as (? & ? & ?).
    repeat split; try done.
    revert Hd. unfold App.decode. rewrite Hk, Hi.
    destruct (JSON_parse _); [| done]. intros [= <-]. simpl.
    unfold substring_to. by rewrite Nat2Z.id.
Qed.

(** A decoded outcome never holds both a blueprint and operations. *)
Lemma one_payload_kind (text : string) (isAutoPilot : bool) (o : Outcome) :
  decode text isAutoPilot = Normal o -> blueprint o = None \/ fileOps o = [].
Proof.
  intros Hd. destruct (payload_kind text) as [[|] |] eqn:Hk.
  - right. by destruct (decode_blueprint _ _ _ Hk Hd).
  - left. by destruct (decode_operations _ _ _ Hk Hd).
  - left. by destruct (decode_none _ _ _ Hk Hd) as (_ & ? & _).
Qed.

(** C8. A payload [j] that is not blank and does not itself open with a
    fence, as no JSON text does, decodes alike bare and fenced: the fenced
    block, with its [json] tag and any white space inside and around it,
    hands [JSON.parse] the same text as [j] alone, so the parsed value, or
    the failure, and the operations read from it are the same. *)
Theorem fenced_and_bare_decode_alike (o1 ws1 j ws2 o2 : string) :
  all_space o1 = true -> all_space ws1 = true ->
  all_space ws2 = true -> all_space o2 = true ->
  all_space j = false ->
  starts_with Decoder.fence (trim j) = false ->
  Decoder.jsonString (fenced o1 ws1 j ws2 o2) = Decoder.jsonString j
  /\ JSON_parse (Decoder.jsonString (fenced o1 ws1 j ws2 o2))
     = JSON_parse (Decoder.jsonString j)
  /\ parse_operations JSON_parse as_FileOperations
       (Decoder.jsonString (fenced o1 ws1 j ws2 o2))
     = parse_operations JSON_parse as_FileOperations (Decoder.jsonString j).
Proof.
  intros Ho1 Hw1 Hw2 Ho2 Hj Hf.
  assert (Decoder.jsonString (fenced o1 ws1 j ws2 o2)
          = Decoder.jsonString j) as ->.
  { rewrite DecoderFacts.jsonString_fenced by done.
    by rewrite DecoderFacts.jsonString_bare. }
  done.
Qed.

End Decode.


Lemma completion_by_marker_and_round_witness :
  let text := join (chunks operations_stream) in
  let ops := [create_file "src/x.tsx" "hi"] in
  round_result "w1" "A"
    (fun t => status t = completed
              /\ (response_operations <$> assistantResponse t) = Some (Some ops))
    (fun fs => FS.applyFileOperations fs ops)
    (workspaces start)
    (finish JSON_parse_samples read_FileOperations "w1" "A" true text (workspaces start)).
Proof.
  intros text ops.
  destruct (completion_by_marker_and_round JSON_parse_samples read_FileOperations
              "w1" "A" true text (workspaces start)
              {| finalConversationalPart := "Adding the file."; fileOps := ops;
                 blueprint := None; final_status := completed |}
              ltac:(vm_compute; reflexivity)) as (_ & H & _).
  apply H.
  - apply indexOf_absent. vm_compute. reflexivity.
  - exists "Adding the file. ", operations_json. reflexivity.
Defined.

(** C2, where the claim fails: the task [A] has the origin [autopilot]; its
    first round ends in a blueprint, and the round that follows the approval
    of the blueprint ends in operations. That round runs without
    [isAutoPilot]: the task is left [pending_confirmation], not [completed],
    and the batch is not applied. *)
Lemma autopilot_task_awaits_confirmation_after_blueprint :
  task_summary planned = [("A", pending_blueprint_approval, Some autopilot)]
  /\ payload_kind (join (chunks operations_stream)) = Some Operations
  /\ task_summary implemented = [("A", pending_confirmation, Some autopilot)]
  /\ active_tree implemented = active_tree start
  /\ (active_tree implemented ≫= FS.findNodeByPath "src/x.tsx") = None.
Proof. repeat split; vm_compute; reflexivity. Qed.

Lemma parse_failure_becomes_task_error_witness :
  exists reason,
    decode JSON_parse_samples read_FileOperations broken_text false = Throw reason
    /\ reason = "Failed to parse file operations from AI. Unexpected token"
    /\ round_result "w1" "A"
         (fun t => status t = error /\ task_error t = Some reason) (fun fs => fs)
         (workspaces start)
         (finish JSON_parse_samples read_FileOperations "w1" "A" false broken_text
            (workspaces start)).
Proof.
  destruct (parse_failure_becomes_task_error JSON_parse_samples read_FileOperations
              "w1" "A" false broken_text " {oops" "Unexpected token")
    as (reason & Hd & Hr & Hfin & _).
  - vm_compute. reflexivity.
  - vm_compute. reflexivity.
  - assert (decode JSON_parse_samples read_FileOperations broken_text false
            = Throw "Failed to parse file operations from AI. Unexpected token") as E
      by (vm_compute; reflexivity).
    exists reason. split; [exact Hd |]. split; [| apply Hfin].
    rewrite E in Hd. by injection Hd.
Defined.

Lemma missing_operations_is_empty_batch_witness :
  exists o,
    decode JSON_parse_samples read_FileOperations "Done. ---JSON_OPERATIONS--- {}" false
    = Normal o
    /\ fileOps o = []
    /\ round_result "w1" "A"
         (fun t => status t = pending_confirmation
                   /\ (response_operations <$> assistantResponse t) = Some (Some []))
         (fun fs => fs) (workspaces start)
         (finish JSON_parse_samples read_FileOperations "w1" "A" false
            "Done. ---JSON_OPERATIONS--- {}" (workspaces start)).
Proof.
  apply (missing_operations_is_empty_batch JSON_parse_samples read_FileOperations
           "w1" "A" false "Done. ---JSON_OPERATIONS--- {}" (workspaces start)
           (JObject [])).
  - apply indexOf_absent. vm_compute. reflexivity.
  - exists "Done. ", " {}". reflexivity.
  - vm_compute. reflexivity.
  - left. reflexivity.
Defined.

(** C10, where the claim fails: the payload [null] is valid JSON without an
    [operations] member, yet reading [operations] from it throws, and the
    round ends with the task in status [error]. *)
Lemma null_payload_is_an_error :
  JSON_parse_samples
    (Decoder.jsonString
       (payload_after null_text (indexOf null_text opsSeparator) opsSeparator))
  = Normal JNull
  /\ decode JSON_parse_samples read_FileOperations null_text false
     = Throw ("Failed to parse file operations from AI. "
              +:+ "Cannot read properties of null (reading 'operations')")
  /\ task_summary
       (handleCreateTask JSON_parse_samples read_FileOperations start "add a file" "A"
          {| chunks := [null_text]; failure := None |})
     = [("A", error, Some user)].
Proof. repeat split; vm_compute; reflexivity. Qed.

Lemma blueprint_marker_wins_witness :
  let text := "Plan. ---JSON_OPERATIONS--- {} ---JSON_BLUEPRINT--- {}" in
  payload_kind text = Some Blueprint
  /\ conversationalPart text = "Plan. ---JSON_OPERATIONS--- {} ".
Proof.
  intros text.
  destruct (blueprint_marker_wins JSON_parse_samples read_FileOperations text)
    as (Hk & _).
  - exists "Plan. ---JSON_OPERATIONS--- {} ", " {}". reflexivity.
  - exists "Plan. ", " {} ---JSON_BLUEPRINT--- {}". reflexivity.
  - split; [exact Hk | reflexivity].
Defined.

Lemma fenced_and_bare_decode_alike_witness :
  let nl := String (ascii_of_nat 10) "" in
  JSON_parse_samples
    (Decoder.jsonString (fenced "" nl empty_operations_json nl ""))
  = JSON_parse_samples (Decoder.jsonString empty_operations_json).
Proof.
  intros nl.
  apply (fenced_and_bare_decode_alike JSON_parse_samples read_FileOperations
           "" nl empty_operations_json nl ""); reflexivity.
Defined.

(** *** Approval and rejection *)

Lemma find_task_in_task (taskId : string) (f : AITask -> AITask) (l : list AITask) :
  (forall t, id (f t) = id t) ->
  find_task taskId ((fun task => if String.eqb (id task) taskId then f task else task) <$> l)
  = f <$> find_task taskId l.
Proof.
  intros Hid. unfold find_task. induction l as [|t l IH]; [done |].
  cbn [fmap list_fmap List.find].
  destruct (String.eqb (id t) taskId) eqn:E.
  - by rewrite Hid, E.
  - rewrite E. apply IH.
Qed.

(** C3. For a task found in the active workspace in status
    [pending_confirmation] and holding a batch: rejecting it completes the
    task and leaves the tree as it is; approving it completes the task and
    makes the tree the result of [applyFileOperations] on that batch. *)
Theorem approve_and_reject_pending (st : AppState) (taskId active : string) (i : nat)
    (ws : Workspace) (task : AITask) (ops : list FileOperation) :
  truthy_id (activeWorkspaceId st) = Some active ->
  workspaces st !! i = Some ws -> ws_id ws = active ->
  find_task taskId (tasks ws) = Some task ->
  status task = pending_confirmation ->
  assistantResponse task ≫= response_operations = Some ops ->
  (exists ws', workspaces (handleRejectTask st taskId) !! i = Some ws'
     /\ fileSystem ws' = fileSystem ws
     /\ status <$> find_task taskId (tasks ws') = Some completed)
  /\ (exists ws', workspaces (handleApproveTask st taskId) !! i = Some ws'
        /\ fileSystem ws' = FS.applyFileOperations (fileSystem ws) ops
        /\ status <$> find_task taskId (tasks ws') = Some completed).
Proof.
  intros Ha Hi Hid Ht Hs Hops.
  unfold handleRejectTask, handleApproveTask. rewrite Ha.
  cbn [workspaces set_workspaces]. unfold in_workspace.
  rewrite !list_lookup_fmap, Hi. cbn [fmap option_fmap option_map].
  rewrite Hid, String.eqb_refl. split.
  - eexists. split; [done |]. split; [done |].
    cbn [tasks in_task].
    rewrite (find_task_in_task taskId (with_status completed)), Ht by done. done.
  - unfold approve_in. rewrite Ht, Hs, Hops.
    rewrite bool_decide_eq_true_2 by done. cbn [negb].
    eexists. split; [done |]. split; [done |].
    cbn [tasks in_task].
    rewrite (find_task_in_task taskId (with_status completed)), Ht by done. done.
Qed.

(** The spec's end-to-end example: a user prompt whose response ends in a
    [CREATE_FILE] for [src/x.tsx] leaves the task [pending_confirmation] and
    the tree without the file; approving it creates the file, rejecting it
    leaves the tree as it was. *)
Example end_to_end :
  task_summary asked = [("T", pending_confirmation, Some user)]
  /\ (active_tree asked ≫= FS.findNodeByPath "src/x.tsx") = None
  /\ task_summary (handleApproveTask asked "T") = [("T", completed, Some user)]
  /\ (active_tree (handleApproveTask asked "T") ≫= FS.findNodeByPath "src/x.tsx")
     = Some (FileNode "hi")
  /\ active_tree (handleRejectTask asked "T") = active_tree start.
Proof. repeat split; vm_compute; reflexivity. Qed.

Lemma approve_and_reject_pending_witness :
  (exists ws', workspaces (handleRejectTask pending_state "T") !! 0%nat = Some ws'
     /\ fileSystem ws' = sample_tree
     /\ status <$> find_task "T" (tasks ws') = Some completed)
  /\ (exists ws', workspaces (handleApproveTask pending_state "T") !! 0%nat = Some ws'
        /\ fileSystem ws'
           = FS.applyFileOperations sample_tree
               [create_file "src/x.tsx" "hi"]
        /\ status <$> find_task "T" (tasks ws') = Some completed).
Proof.
  apply (approve_and_reject_pending pending_state "T" "w1" 0 pending_workspace
           pending_task [create_file "src/x.tsx" "hi"]); reflexivity.
Defined.

(** *** The auto-pilot scheduler *)

Lemma find_workspace_in_workspace (active : string) (f : Workspace -> Workspace)
    (l : list Workspace) :
  (forall ws, ws_id (f ws) = ws_id ws) ->
  find_workspace active (in_workspace active f l) = f <$> find_workspace active l.
Proof.
  intros Hid. unfold find_workspace, in_workspace.
  induction l as [|w l IH]; [done |].
  cbn [fmap list_fmap List.find].
  destruct (String.eqb (ws_id w) active) eqn:E.
  - by rewrite Hid, E.
  - rewrite E. apply IH.
Qed.

Lemma filter_none {A : Type} (p : A -> bool) (l : list A) :
  existsb p l = false -> List.filter p l = [].
Proof.
  induction l as [|x l IH]; simpl; [done |].
  intros [-> Hl]%orb_false_iff. by apply IH.
Qed.

Lemma find_some_existsb {A : Type} (p : A -> bool) (l : list A) :
  is_Some (List.find p l) -> existsb p l = true.
Proof.
  induction l as [|x l IH]; simpl; [by intros [? ?] |].
  destruct (p x); [done | apply IH].
Qed.

Lemma truthy_id_inv (i : option string) (active : string) :
  truthy_id i = Some active -> i = Some active.
Proof. destruct i as [s |]; simpl; [| done]. by destruct (truthy s). Qed.

(** What the tick does when it sees an auto-pilot task running. *)
Lemma tick_guard (st : AppState) (taskId : string) :
  is_Some (autoPilotRunningTask st) -> handleAutoPilotTick_start st taskId = None.
Proof.
  unfold autoPilotRunningTask, activeWorkspace, handleAutoPilotTick_start.
  destruct (activeWorkspaceId st) as [i |]; [| by intros [? ?]].
  destruct (truthy_id (Some i)) as [a |] eqn:Ha; [| done].
  apply truthy_id_inv in Ha as [= ->].
  destruct (find_workspace a (workspaces st)) as [w |]; [| done].
  by intros ->%find_some_existsb.
Qed.

(** C9, as the code has it. A tick that sees a task of origin [autopilot]
    in status [running] in the active workspace creates no task and starts no
    round, and while such a task runs, or while auto-pilot is off, the
    interval that fires the tick is not installed. A tick that does start a
    round leaves exactly one running auto-pilot task in the active workspace:
    the one it created. *)
Theorem autopilot_tick_single_flight (st : AppState) :
  (is_Some (autoPilotRunningTask st) ->
     interval_installed st = false
     /\ forall taskId, handleAutoPilotTick_start st taskId = None
        /\ forall JSON_parse as_FileOperations stream,
             handleAutoPilotTick JSON_parse as_FileOperations st taskId stream = st)
  /\ (isAutoPilotOn (currentUiState st) = false -> interval_installed st = false)
  /\ (forall taskId st', handleAutoPilotTick_start st taskId = Some st' ->
        exists w', activeWorkspace st' = Some w'
          /\ List.filter is_running_autopilot (tasks w')
             = [new_task taskId "Proactive AI Step" autopilot]).
Proof.
  split; [| split].
  - intros Hr. split.
    + unfold interval_installed. rewrite (bool_decide_eq_true_2 _ Hr).
      by rewrite !orb_true_r.
    + intros taskId. pose proof (tick_guard st taskId Hr) as Hg.
      split; [done |]. intros. unfold handleAutoPilotTick. by rewrite Hg.
  - intros Hoff. unfold interval_installed. by rewrite Hoff.
  - intros taskId st'. unfold handleAutoPilotTick_start.
    destruct (truthy_id (activeWorkspaceId st)) as [a |] eqn:Ha; [| done].
    destruct (find_workspace a (workspaces st)) as [w |] eqn:Hw; [| done].
    destruct (existsb is_running_autopilot (tasks w)) eqn:He; [done |].
    intros [= <-]. unfold activeWorkspace. cbn [activeWorkspaceId set_workspaces workspaces].
    rewrite (truthy_id_inv _ _ Ha).
    rewrite find_workspace_in_workspace, Hw by done.
    eexists. split; [done |]. cbn [tasks add_task List.filter].
    by rewrite (filter_none _ _ He).
Qed.

Lemma autopilot_tick_single_flight_witness :
  interval_installed
    (set_workspaces (in_workspace "w1" (add_task (new_task "A" "Proactive AI Step" autopilot)))
       start) = false
  /\ exists w', activeWorkspace
                  (set_workspaces
                     (in_workspace "w1"
                        (add_task (new_task "A" "Proactive AI Step" autopilot))) start)
                = Some w'
       /\ List.filter is_running_autopilot (tasks w')
          = [new_task "A" "Proactive AI Step" autopilot].
Proof.
  split.
  - apply (proj1 (autopilot_tick_single_flight
                    (set_workspaces
                       (in_workspace "w1"
                          (add_task (new_task "A" "Proactive AI Step" autopilot))) start))).
    vm_compute. eexists. reflexivity.
  - apply (proj2 (proj2 (autopilot_tick_single_flight start)) "A").
    reflexivity.
Defined.

(** C9, where the claim fails: two tasks of origin [autopilot] run at once.
    The round of task [A] ends in a blueprint, so the interval is installed
    again and a tick starts task [B]; while [B] runs, the blueprint of [A] is
    approved, which sets [A] running without looking at [B]. *)
Lemma two_autopilot_tasks_running :
  task_summary planned = [("A", pending_blueprint_approval, Some autopilot)]
  /\ interval_installed planned = true
  /\ exists st2 st3,
       handleAutoPilotTick_start planned "B" = Some st2
       /\ handleApproveBlueprint_start st2 "A" = Some st3
       /\ task_summary st3
          = [("B", running, Some autopilot); ("A", running, Some autopilot)].
Proof.
  split; [vm_compute; reflexivity |]. split; [vm_compute; reflexivity |].
  eexists. eexists. split; [vm_compute; reflexivity |].
  split; vm_compute; reflexivity.
Qed.

End AppFacts.

(** * Further properties *)

(** ** Paths *)
Module PathFacts.
Import FS Spec Spec2 Editor StrFacts.

Lemma split_not_nil (sep : ascii) (s : string) : Str.split sep s <> [].
Proof.
  induction s as [|c s IH]; simpl; [done |].
  destruct (Ascii.eqb c sep); [done |]. by destruct (Str.split sep s).
Qed.

Lemma split_append (sep : ascii) (a b : string) :
  Str.split sep (a +:+ String sep b) = Str.split sep a ++ Str.split sep b.
Proof.
  induction a as [|c a IH]; simpl.
  - by rewrite Ascii.eqb_refl.
  - destruct (Ascii.eqb c sep); [by rewrite IH |].
    rewrite IH. pose proof (split_not_nil sep a).
    by destruct (Str.split sep a).
Qed.


Lemma path_parts_append (a b : string) :
  path_parts (a +:+ "/" +:+ b) = path_parts a ++ path_parts b.
Proof.
  unfold path_parts.
  change (a +:+ "/" +:+ b) with (a +:+ String "/" b).
  by rewrite split_append, List.filter_app.
Qed.


Lemma slash_free_split (s w : string) :
  In w (Str.split "/" s) -> slash_free w = true.
Proof.
  revert w; induction s as [|c s IH]; intros w; simpl.
  - by intros [<- | []].
  - destruct (Ascii.eqb c "/") eqn:E.
    + intros [<- | H]; [done | by apply IH].
    + pose proof (split_not_nil "/" s).
      destruct (Str.split "/" s) as [|w0 ws]; [done |].
      intros [<- | H'].
      * simpl. rewrite E. simpl. apply IH. by left.
      * apply IH. by right.
Qed.

(** X1. A path is read as the list of its non-empty names between
    slashes: reading distributes over a slash, so a leading, a trailing or a
    doubled slash changes nothing, and every name read is non-empty and free
    of slashes. *)
Theorem path_parts_slashes (a b : string) :
  path_parts (a +:+ "/" +:+ b) = path_parts a ++ path_parts b
  /\ path_parts ("/" +:+ a) = path_parts a
  /\ path_parts (a +:+ "/") = path_parts a
  /\ path_parts (a +:+ "//" +:+ b) = path_parts (a +:+ "/" +:+ b)
  /\ Forall good_name (path_parts a).
Proof.
  split; [apply path_parts_append |].
  assert (forall x, path_parts ("/" +:+ x) = path_parts x) as Hlead.
  { intros x. change ("/" +:+ x) with ("" +:+ "/" +:+ x).
    by rewrite path_parts_append. }
  split; [apply Hlead |].
  split.
  { change (a +:+ "/") with (a +:+ "/" +:+ "").
    by rewrite (path_parts_append a ""), app_nil_r. }
  split.
  - change (a +:+ "//" +:+ b) with (a +:+ "/" +:+ ("/" +:+ b)).
    by rewrite (path_parts_append a ("/" +:+ b)), Hlead, path_parts_append.
  - apply Forall_forall. intros w Hw. apply list_elem_of_In in Hw.
    unfold path_parts in Hw. apply filter_In in Hw as [Hin Ht].
    split; [done | by eapply slash_free_split].
Qed.



End PathFacts.

(** ** More on the file system *)
Module FSMore.
Import FS Spec Spec2 Editor FSFacts.



(** Without [createParents], a walk towards an address that does not
    resolve returns the null record. *)
Lemma walk_missing (tree : FileSystemNode) (parts cur : list string) :
  is_Some (node_at cur tree) -> node_at (cur ++ parts) tree = None ->
  walk false tree cur parts = (tree, None).
Proof.
  revert cur; induction parts as [|p rest IH]; intros cur [n Hn] H; simpl.
  - rewrite app_nil_r in H. congruence.
  - rewrite Hn. destruct n as [c | ch]; [done |].
    destruct (ch !! p) as [child |] eqn:Ep; [| done].
    apply IH.
    + rewrite node_at_app, Hn. simpl. rewrite Ep. by eexists.
    + by rewrite <- app_assoc.
Qed.




(** A mutation of the children of one folder leaves every unrelated address
    as it was. *)
Lemma alter_children_frame (f : gmap string FileSystemNode -> gmap string FileSystemNode)
    (a : list string) (k : string) (q : list string) (tree : FileSystemNode) :
  (forall ch y, y <> k -> f ch !! y = ch !! y) ->
  unrelated (a ++ [k]) q ->
  node_at q (alter_children f a tree) = node_at q tree.
Proof.
  intros Hf. revert q tree; induction a as [|c a IH]; intros q tree [H1 H2].
  - destruct tree as [x | ch]; [done |]. simpl.
    destruct q as [|y r]; [exfalso; apply H2, prefix_nil |]. simpl.
    rewrite Hf; [done |]. intros ->. apply H1. by apply prefix_cons, prefix_nil.
  - destruct tree as [x | ch]; [done |]. simpl.
    destruct (ch !! c) as [child |] eqn:E; [| done].
    destruct q as [|y r]; [exfalso; apply H2, prefix_nil |]. simpl.
    destruct (decide (y = c)) as [-> | Hne].
    + rewrite lookup_insert_eq, E. apply IH. split.
      * intros Hp. apply H1. by apply prefix_cons.
      * intros Hp. apply H2. by apply prefix_cons.
    + by rewrite lookup_insert_ne.
Qed.

Lemma set_child_frame (a : list string) (k : string) (v : FileSystemNode)
    (q : list string) (tree : FileSystemNode) :
  unrelated (a ++ [k]) q -> node_at q (set_child a k v tree) = node_at q tree.
Proof.
  apply alter_children_frame. intros ch y Hy. by rewrite lookup_insert_ne.
Qed.

Lemma delete_child_frame (a : list string) (k : string) (q : list string)
    (tree : FileSystemNode) :
  unrelated (a ++ [k]) q -> node_at q (delete_child a k tree) = node_at q tree.
Proof.
  apply alter_children_frame. intros ch y Hy. by rewrite lookup_delete_ne.
Qed.




Lemma alter_children_compose
    (f g : gmap string FileSystemNode -> gmap string FileSystemNode)
    (a : list string) (tree : FileSystemNode) :
  alter_children f a (alter_children g a tree)
  = alter_children (fun ch => f (g ch)) a tree.
Proof.
  revert tree; induction a as [|c a IH]; intros [x | ch]; simpl; try done.
  destruct (ch !! c) as [child |] eqn:E; simpl; [| by rewrite E].
  by rewrite lookup_insert_eq, insert_insert_eq, IH.
Qed.

Lemma alter_children_id (f : gmap string FileSystemNode -> gmap string FileSystemNode)
    (a : list string) (tree : FileSystemNode) (ch : gmap string FileSystemNode) :
  node_at a tree = Some (FolderNode ch) -> f ch = ch -> alter_children f a tree = tree.
Proof.
  revert tree; induction a as [|c a IH]; intros [x | ch0]; simpl; try done.
  - by intros [= ->] ->.
  - destruct (ch0 !! c) as [child |] eqn:E; [| done].
    intros Hn Hf. rewrite (IH child Hn Hf). by rewrite insert_id.
Qed.

Lemma node_at_alter_children (f : gmap string FileSystemNode -> gmap string FileSystemNode)
    (a : list string) (tree : FileSystemNode) (ch : gmap string FileSystemNode) :
  node_at a tree = Some (FolderNode ch) ->
  node_at a (alter_children f a tree) = Some (FolderNode (f ch)).
Proof.
  revert tree; induction a as [|c a IH]; intros [x | ch0]; simpl; try done.
  - by intros [= ->].
  - destruct (ch0 !! c) as [child |] eqn:E; [| done].
    intros Hn. simpl. rewrite lookup_insert_eq. by apply IH.
Qed.



Lemma is_folder_alter_children
    (f : gmap string FileSystemNode -> gmap string FileSystemNode)
    (a : list string) (tree : FileSystemNode) :
  is_folder (alter_children f a tree) = is_folder tree.
Proof.
  destruct tree as [x | ch]; [by destruct a |].
  destruct a as [|c a]; simpl; [done |]. by destruct (ch !! c).
Qed.

Lemma is_folder_walk (createParents : bool) (parts cur : list string)
    (tree : FileSystemNode) :
  is_folder (fst (walk createParents tree cur parts)) = is_folder tree.
Proof.
  revert cur tree; induction parts as [|p rest IH]; intros cur tree; simpl; [done |].
  destruct (node_at cur tree) as [[c | ch] |]; try done.
  destruct (ch !! p); [apply IH |]. destruct createParents; [| done].
  rewrite IH. apply is_folder_alter_children.
Qed.

Lemma is_folder_traversePath (createParents : bool) (tree : FileSystemNode)
    (path : string) :
  is_folder (fst (traversePath tree path createParents)) = is_folder tree.
Proof.
  unfold traversePath. destruct (path_parts path) as [|p l]; [done |].
  pose proof (is_folder_walk createParents (removelast (p :: l)) [] tree) as H.
  destruct (walk createParents tree [] (removelast (p :: l))) as [t' [a |]];
    simpl in *; [| done].
  by destruct (node_at a t') as [[c | ch] |].
Qed.

Lemma parts_snoc (path : string) :
  path_parts path <> [] -> exists init k, path_parts path = init ++ [k].
Proof.
  destruct (path_parts path) as [|k init _] using rev_ind; [done |]. by exists init, k.
Qed.

(** X3. The two resolvers agree: [traversePath] without [createParents]
    never changes the tree, and the node it returns is the one that
    [findNodeByPath] finds, for every tree and every path. *)
Theorem traversePath_agrees_with_findNodeByPath (tree : FileSystemNode) (path : string) :
  fst (traversePath tree path false) = tree
  /\ node (snd (traversePath tree path false)) = findNodeByPath path tree.
Proof.
  split; [apply traversePath_read_only |].
  unfold findNodeByPath.
  destruct (path_parts path) as [|k init _] eqn:E using rev_ind.
  { unfold traversePath. by rewrite E. }
  destruct (node_at init tree) as [[x | ch] |] eqn:Hn.
  - rewrite (traversePath_blocked false tree path x init k [] E Hn).
    by rewrite node_at_app, Hn.
  - rewrite (traversePath_existing false tree path init k ch E Hn). simpl.
    rewrite node_at_app, Hn. simpl. by destruct (ch !! k).
  - unfold traversePath. rewrite E.
    destruct (init ++ [k]) eqn:E'; [by destruct init |]. rewrite <- E'.
    rewrite removelast_snoc, (walk_missing tree init []); [| by eexists | done].
    simpl. by rewrite node_at_app, Hn.
Qed.

Lemma traversePath_missing (tree : FileSystemNode) (path : string)
    (init : list string) (k : string) :
  path_parts path = init ++ [k] -> node_at init tree = None ->
  traversePath tree path false = (tree, not_found).
Proof.
  intros E Hn. unfold traversePath. rewrite E.
  destruct (init ++ [k]) eqn:E'; [by destruct init |]. rewrite <- E'.
  by rewrite removelast_snoc, (walk_missing tree init []); [| by eexists | done].
Qed.




Lemma apply_rename (tree : FileSystemNode) (op : FileOperation) (np : string) :
  is_rename op = true -> newPath op = Some np -> Str.truthy np = true ->
  apply_operation tree op
  = let '(t, r) := traversePath tree (path op) false in
    match parent r, node r with
    | Some oldParent, Some n =>
        if Str.truthy (key r) then
          let t1 := delete_child oldParent (key r) t in
          let '(t2, r2) := traversePath t1 np true in
          match parent r2 with
          | Some newParent =>
              if Str.truthy (key r2)
              then (set_child newParent (key r2) n t2, None)
              else (t2, Some ("Invalid destination path for RENAME: " +:+ np))
          | None => (t2, Some ("Invalid destination path for RENAME: " +:+ np))
          end
        else (t, Some ("Source path not found for RENAME: " +:+ path op))
    | _, _ => (t, Some ("Source path not found for RENAME: " +:+ path op))
    end.
Proof.
  unfold apply_operation, is_rename. intros Hr -> Ht.
  destruct (operation op); try done; by rewrite Ht.
Qed.




(** X8. Renaming a node that exists to its own path leaves the tree
    exactly as it was and reports no failure. *)
Theorem rename_to_itself (tree : FileSystemNode) (op : FileOperation)
    (n : FileSystemNode) (np : string) :
  is_rename op = true ->
  path_parts (path op) <> [] ->
  findNodeByPath (path op) tree = Some n ->
  newPath op = Some np ->
  path_parts np = path_parts (path op) ->
  applyFileOperations_log tree [op] = (tree, []).
Proof.
  intros Hr Hne Hsrc Hnp Hsame.
  assert (Str.truthy np = true) as Ht.
  { destruct np; [| done]. by rewrite <- Hsame in Hne. }
  unfold applyFileOperations_log, deep_clone, apply_loop.
  rewrite (apply_rename tree op np Hr Hnp Ht).
  apply parts_snoc in Hne as (init & k & E).
  unfold findNodeByPath in *. rewrite E in *.
  apply node_at_snoc in Hsrc as (ch & Hch & Hk).
  rewrite (traversePath_existing false tree (path op) init k ch E Hch).
  cbn [parent node key]. rewrite Hk, (path_parts_truthy _ _ _ E). cbv zeta.
  rewrite (traversePath_existing true (delete_child init k tree) np init k
             (delete k ch) Hsame (node_at_alter_children _ _ _ _ Hch)).
  cbn [parent key]. rewrite (path_parts_truthy _ _ _ E).
  unfold set_child, delete_child. rewrite alter_children_compose.
  rewrite (alter_children_id _ init tree ch Hch); [done |].
  by apply insert_delete_id.
Qed.


(** X10. The root of the tree stays a folder under every batch of
    operations and under [updateFileContent]: no operation, whatever its
    path, replaces the root by a file. *)
Theorem root_stays_folder (tree : FileSystemNode) (operations : list FileOperation)
    (edited newContent : string) :
  is_folder tree = true ->
  is_folder (applyFileOperations tree operations) = true
  /\ is_folder (updateFileContent tree edited newContent) = true.
Proof.
  intros Hroot. split.
  - unfold applyFileOperations, applyFileOperations_log, deep_clone.
    revert tree Hroot; induction operations as [|op rest IH]; intros tree Hroot; [done |].
    cbn [apply_loop].
    assert (is_folder (fst (apply_operation tree op)) = true) as Hone.
    { rewrite <- Hroot. unfold apply_operation, set_child, delete_child.
      pose proof (is_folder_traversePath true tree (path op)) as Ht.
      pose proof (is_folder_traversePath false tree (path op)) as Hf.
      destruct (operation op).
      1, 2, 4: destruct (traversePath tree (path op) true) as [t r]; cbn [fst] in *;
               destruct (parent r); [| done]; destruct (Str.truthy (key r)); [| done];
               try (destruct (node_at _ t); [done |]); cbn [fst];
               by rewrite is_folder_alter_children.
      1, 2: destruct (traversePath tree (path op) false) as [t r]; cbn [fst] in *;
            destruct (parent r); [| done]; destruct (node r); [| done];
            destruct (Str.truthy (key r)); [| done]; cbn [fst];
            by rewrite is_folder_alter_children.
      all: destruct (newPath op) as [np |]; [| done];
           destruct (Str.truthy np); [| done]; cbn [negb];
           destruct (traversePath tree (path op) false) as [t r]; cbn [fst] in *;
           destruct (parent r) as [p |]; [| done]; destruct (node r); [| done];
           destruct (Str.truthy (key r)); [| done];
           pose proof (is_folder_traversePath true
                         (alter_children (fun ch => delete (key r) ch) p t) np) as H2;
           destruct (traversePath (alter_children (fun ch => delete (key r) ch) p t)
                       np true) as [t2 r2];
           cbn [fst] in *; rewrite is_folder_alter_children in H2;
           destruct (parent r2); [destruct (Str.truthy (key r2)) |]; cbn [fst];
           rewrite ?is_folder_alter_children; congruence. }
    destruct (apply_operation tree op) as [t thrown]. cbn [fst] in Hone.
    specialize (IH t Hone). by destruct (apply_loop t rest).
  - unfold updateFileContent, deep_clone, traversePath.
    destruct (path_parts edited) as [|p l]; [by destruct tree |].
    pose proof (is_folder_walk false (removelast (p :: l)) [] tree) as Hw.
    destruct (walk false tree [] (removelast (p :: l))) as [t' [a |]];
      cbn [fst] in Hw; [| cbn [node not_found]; by rewrite Hw].
    destruct (node_at a t') as [[c | ch] |]; cbn [node not_found]; try by rewrite Hw.
    destruct (ch !! List.last (p :: l) "") as [[c | ch'] |]; cbn [parent key];
      unfold set_child; rewrite ?is_folder_alter_children; by rewrite Hw.
Qed.

Lemma alter_children_ext (f g : gmap string FileSystemNode -> gmap string FileSystemNode)
    (a : list string) (tree : FileSystemNode) :
  (forall ch, f ch = g ch) -> alter_children f a tree = alter_children g a tree.
Proof.
  intros Hfg. revert tree; induction a as [|c a IH]; intros [x | ch]; simpl; try done.
  - by rewrite Hfg.
  - destruct (ch !! c); [| done]. by rewrite IH.
Qed.

(** The three ways of [updateFileContent]: the file found under its parent
    is replaced; a root that is a file is replaced; anything else is left
    as it is. *)
Lemma updateFileContent_cases (tree : FileSystemNode) (file newContent : string) :
  (exists init k ch c,
     path_parts file = init ++ [k] /\ node_at init tree = Some (FolderNode ch)
     /\ ch !! k = Some (FileNode c)
     /\ updateFileContent tree file newContent
        = set_child init k (FileNode newContent) tree)
  \/ (path_parts file = [] /\ (exists c, tree = FileNode c)
      /\ updateFileContent tree file newContent = FileNode newContent)
  \/ ((forall c, findNodeByPath file tree <> Some (FileNode c))
      /\ updateFileContent tree file newContent = tree).
Proof.
  unfold updateFileContent, deep_clone, findNodeByPath.
  destruct (path_parts file) as [|k init _] eqn:E using rev_ind.
  - unfold traversePath. rewrite E. cbn [node parent].
    destruct tree as [c | ch].
    + right. left. split; [done |]. split; [by exists c | done].
    + right. right. split; [| done]. intros c. simpl. done.
  - destruct (node_at init tree) as [[x | ch] |] eqn:Hn.
    + right. right. rewrite (traversePath_blocked false tree file x init k [] E Hn).
      split; [| done]. intros c. by rewrite node_at_app, Hn.
    + rewrite (traversePath_existing false tree file init k ch E Hn).
      cbn [node parent key].
      destruct (ch !! k) as [[c | ch'] |] eqn:Ek.
      * left. by exists init, k, ch, c.
      * right. right. split; [| done]. intros c. rewrite node_at_app, Hn. simpl.
        by rewrite Ek.
      * right. right. split; [| done]. intros c. rewrite node_at_app, Hn. simpl.
        by rewrite Ek.
    + right. right. rewrite (traversePath_missing tree file init k E Hn).
      split; [| done]. intros c. by rewrite node_at_app, Hn.
Qed.

(** X11. [updateFileContent] changes exactly the file at its path: where
    [findNodeByPath] finds a file, it finds afterwards a file with the new
    content; where it finds a folder or nothing, the tree is unchanged,
    nothing being created; and every unrelated path resolves as before. *)
Theorem updateFileContent_effect (tree : FileSystemNode) (file newContent : string) :
  (forall c, findNodeByPath file tree = Some (FileNode c) ->
     findNodeByPath file (updateFileContent tree file newContent)
     = Some (FileNode newContent))
  /\ ((forall c, findNodeByPath file tree <> Some (FileNode c)) ->
        updateFileContent tree file newContent = tree)
  /\ (forall q, unrelated (path_parts file) (path_parts q) ->
        findNodeByPath q (updateFileContent tree file newContent)
        = findNodeByPath q tree).
Proof.
  destruct (updateFileContent_cases tree file newContent)
    as [(init & k & ch & c & E & Hn & Hk & ->) | [(E & [c ->] & ->) | [Hno ->]]];
    unfold findNodeByPath in *.
  - split; [| split].
    + intros _ _. rewrite E. by eapply node_at_set_child.
    + intros Hno. exfalso. apply (Hno c). rewrite E, node_at_app, Hn. simpl.
      by rewrite Hk.
    + intros q Hu. apply set_child_frame. by rewrite <- E.
  - rewrite E. split; [done |]. split.
    + intros Hno. by destruct (Hno c).
    + intros q [Hu _]. exfalso. apply Hu, prefix_nil.
  - split; [| done]. intros c Hc. by destruct (Hno c).
Qed.

(** X12. For [updateFileContent] the last write wins, and writing to a
    file the content it already has changes nothing. *)
Theorem updateFileContent_overwrite (tree : FileSystemNode) (file a b : string) :
  updateFileContent (updateFileContent tree file a) file b
  = updateFileContent tree file b
  /\ (findNodeByPath file tree = Some (FileNode a) ->
        updateFileContent tree file a = tree).
Proof.
  destruct (updateFileContent_cases tree file a)
    as [(init & k & ch & c & E & Hn & Hk & Ha) | [(E & [c ->] & Ha) | [Hno Ha]]].
  - split.
    + rewrite Ha.
      destruct (updateFileContent_cases tree file b)
        as [(init' & k' & ch' & c' & E' & Hn' & Hk' & ->) | [(E' & _) | [Hno _]]].
      * rewrite E in E'. apply app_inj_tail in E' as [<- <-].
        destruct (updateFileContent_cases (set_child init k (FileNode a) tree) file b)
          as [(i2 & k2 & ch2 & c2 & E2 & Hn2 & Hk2 & ->) | [(E2 & _) | [Hno2 _]]].
        -- rewrite E in E2. apply app_inj_tail in E2 as [<- <-].
           unfold set_child. rewrite alter_children_compose.
           apply alter_children_ext. intros ch0. by rewrite insert_insert_eq.
        -- rewrite E in E2. by destruct init.
        -- exfalso. apply (Hno2 a). unfold findNodeByPath. rewrite E.
           by eapply node_at_set_child.
      * rewrite E in E'. by destruct init.
      * exfalso. apply (Hno c). unfold findNodeByPath.
        rewrite E, node_at_app, Hn. simpl. by rewrite Hk.
    + unfold findNodeByPath. rewrite E, node_at_app, Hn. simpl. rewrite Hk.
      intros [= ->]. rewrite Ha. unfold set_child.
      apply (alter_children_id _ init tree ch Hn). by apply insert_id.
  - split.
    + rewrite Ha. unfold updateFileContent, deep_clone, traversePath. by rewrite E.
    + unfold findNodeByPath. rewrite E. simpl. intros [= ->]. by rewrite Ha.
  - split; [by rewrite Ha |]. intros Hf. by destruct (Hno a).
Qed.








Lemma rename_to_itself_witness :
  applyFileOperations_log Samples.sample_tree
    [Samples.rename_file "src/App.tsx" "/src//App.tsx/"]
  = (Samples.sample_tree, []).
Proof.
  apply (rename_to_itself Samples.sample_tree
           (Samples.rename_file "src/App.tsx" "/src//App.tsx/")
           (FileNode "function App() {}") "/src//App.tsx/"); try reflexivity.
  vm_compute. discriminate.
Defined.


Lemma root_stays_folder_witness :
  is_folder (applyFileOperations Samples.sample_tree [Samples.create_file "/" "x"]) = true
  /\ is_folder (updateFileContent Samples.sample_tree "" "x") = true.
Proof.
  apply (root_stays_folder Samples.sample_tree [Samples.create_file "/" "x"] "" "x").
  reflexivity.
Defined.

Lemma updateFileContent_effect_witness :
  findNodeByPath "src/App.tsx" (updateFileContent Samples.sample_tree "src/App.tsx" "v2")
  = Some (FileNode "v2")
  /\ updateFileContent Samples.sample_tree "src" "v2" = Samples.sample_tree.
Proof.
  destruct (updateFileContent_effect Samples.sample_tree "src/App.tsx" "v2") as (H1 & _).
  destruct (updateFileContent_effect Samples.sample_tree "src" "v2") as (_ & H2 & _).
  split.
  - apply (H1 "function App() {}"). vm_compute. reflexivity.
  - apply H2. intros c Hc. vm_compute in Hc. discriminate.
Defined.

Lemma updateFileContent_overwrite_witness :
  updateFileContent Samples.sample_tree "README.md" "notes" = Samples.sample_tree.
Proof.
  apply (proj2 (updateFileContent_overwrite Samples.sample_tree "README.md" "notes" "")).
  vm_compute. reflexivity.
Defined.

End FSMore.

(** ** Workspaces, console and extensions *)
Module ShellFacts.
Import App Editor Shell StrFacts.

Lemma find_workspace_filter (a i : string) (l : list Workspace) :
  a <> i ->
  find_workspace a (List.filter (fun ws => negb (String.eqb (ws_id ws) i)) l)
  = find_workspace a l.
Proof.
  intros Hne. unfold find_workspace. induction l as [|w l IH]; [done |].
  simpl. destruct (String.eqb (ws_id w) i) eqn:E; simpl.
  - apply String.eqb_eq in E.
    destruct (String.eqb (ws_id w) a) eqn:E2; [| done].
    apply String.eqb_eq in E2. congruence.
  - destruct (String.eqb (ws_id w) a); [done | apply IH].
Qed.

Lemma ids_filter (p : Workspace -> bool) (l : list Workspace) (x : string) :
  x ∈ (ws_id <$> List.filter p l) -> x ∈ (ws_id <$> l).
Proof.
  intros (w & -> & Hw)%list_elem_of_fmap. apply list_elem_of_fmap.
  exists w. split; [done |].
  apply list_elem_of_In. apply list_elem_of_In in Hw.
  by apply filter_In in Hw as [? _].
Qed.

Lemma NoDup_ids_filter (p : Workspace -> bool) (l : list Workspace) :
  NoDup (ws_id <$> l) -> NoDup (ws_id <$> List.filter p l).
Proof.
  induction l as [|w l IH]; simpl; [done |].
  intros [Hw Hl]%NoDup_cons. destruct (p w); simpl; [| by apply IH].
  apply NoDup_cons. split; [| by apply IH].
  intros Hin. apply Hw. by eapply ids_filter.
Qed.

Lemma another_workspace (i : string) (l : list Workspace) :
  NoDup (ws_id <$> l) -> (1 < length l)%nat ->
  exists w rest, List.filter (fun ws => negb (String.eqb (ws_id ws) i)) l = w :: rest.
Proof.
  destruct l as [|w1 [|w2 l]]; simpl; [lia | lia |].
  intros [Hn _]%NoDup_cons _.
  destruct (String.eqb (ws_id w1) i) eqn:E1; simpl; [| by eauto].
  destruct (String.eqb (ws_id w2) i) eqn:E2; simpl; [| by eauto].
  apply String.eqb_eq in E1, E2. exfalso. apply Hn. rewrite E1, <- E2. by left.
Qed.

Lemma find_workspace_fresh (a : string) (l : list Workspace) :
  a ∉ (ws_id <$> l) -> find_workspace a l = None.
Proof.
  unfold find_workspace. induction l as [|w l IH]; simpl; [done |].
  intros Hn. destruct (String.eqb (ws_id w) a) eqn:E.
  - apply String.eqb_eq in E. exfalso. apply Hn. rewrite E. by left.
  - apply IH. intros ?. apply Hn. by right.
Qed.

Lemma find_workspace_app (a : string) (l k : list Workspace) :
  find_workspace a (l ++ k)
  = match find_workspace a l with Some w => Some w | None => find_workspace a k end.
Proof.
  unfold find_workspace. induction l as [|w l IH]; simpl; [done |].
  by destruct (String.eqb (ws_id w) a).
Qed.

(** X14. Deleting a workspace never leaves the application without an active
    workspace: when the workspace identifiers are distinct and the active
    identifier names a workspace, the same holds after [handleDeleteWorkspace],
    whatever identifier is deleted and whatever the user answers; and once
    the state has changed no workspace carries the deleted identifier. *)
Theorem delete_workspace_keeps_active (st : AppState) (i : string) (confirmed : bool) :
  NoDup (ws_id <$> workspaces st) ->
  is_Some (activeWorkspace st) ->
  NoDup (ws_id <$> workspaces (handleDeleteWorkspace st i confirmed))
  /\ is_Some (activeWorkspace (handleDeleteWorkspace st i confirmed))
  /\ (handleDeleteWorkspace st i confirmed <> st ->
      i ∉ (ws_id <$> workspaces (handleDeleteWorkspace st i confirmed))).
Proof.
  intros Hnd Hact. unfold handleDeleteWorkspace.
  destruct (length (workspaces st) <=? 1)%nat eqn:Hlen; [done |].
  destruct confirmed; simpl; [| done].
  apply Nat.leb_gt in Hlen.
  split; [by apply NoDup_ids_filter |]. split.
  - unfold activeWorkspace in *. cbn [activeWorkspaceId workspaces].
    destruct (activeWorkspaceId st) as [a |] eqn:Ha; [| by destruct Hact].
    case_bool_decide as Hai.
    + destruct (another_workspace i _ Hnd Hlen) as (w & rest & ->).
      simpl. unfold find_workspace. simpl. rewrite String.eqb_refl. by eexists.
    + rewrite find_workspace_filter; [done | congruence].
  - intros _ (w & Hw & Hin)%list_elem_of_fmap.
    apply list_elem_of_In, filter_In in Hin as [_ Hin].
    rewrite Hw, String.eqb_refl in Hin. done.
Qed.

Lemma delete_workspace_keeps_active_witness :
  is_Some (activeWorkspace (handleDeleteWorkspace Samples3.two_workspaces "w1" true))
  /\ "w1" ∉ (ws_id <$> workspaces (handleDeleteWorkspace Samples3.two_workspaces "w1" true)).
Proof.
  destruct (delete_workspace_keeps_active Samples3.two_workspaces "w1" true)
    as (_ & H1 & H2).
  - apply (bool_decide_unpack _). vm_compute. exact I.
  - vm_compute. by eexists.
  - split; [exact H1 |]. apply H2. vm_compute. discriminate.
Defined.

(** X15. A workspace created under a name that is not blank, with an
    identifier no workspace has yet, becomes the active workspace: it holds
    the initial files and no task, the preview shows the welcome code, the
    identifiers stay distinct, and every other identifier finds the
    workspace it found before. *)
Theorem create_workspace_becomes_active (INITIAL_CODE : string) (st : AppState)
    (newId name : string) :
  Str.truthy (Str.trim name) = true ->
  newId ∉ (ws_id <$> workspaces st) ->
  activeWorkspace (handleCreateWorkspace INITIAL_CODE st newId name)
  = Some {| ws_id := newId; ws_name := name;
            fileSystem := INITIAL_FILES INITIAL_CODE; tasks := [] |}
  /\ previewCode (handleCreateWorkspace INITIAL_CODE st newId name) = INITIAL_CODE
  /\ (NoDup (ws_id <$> workspaces st) ->
      NoDup (ws_id <$> workspaces (handleCreateWorkspace INITIAL_CODE st newId name)))
  /\ (forall a, a <> newId ->
        find_workspace a (workspaces (handleCreateWorkspace INITIAL_CODE st newId name))
        = find_workspace a (workspaces st)).
Proof.
  intros Hname Hfresh. unfold handleCreateWorkspace. rewrite Hname.
  assert (Hact : find_workspace newId
                   (workspaces st ++ [ {| ws_id := newId; ws_name := name;
                                          fileSystem := INITIAL_FILES INITIAL_CODE;
                                          tasks := [] |} ])
                 = Some {| ws_id := newId; ws_name := name;
                           fileSystem := INITIAL_FILES INITIAL_CODE; tasks := [] |}).
  { rewrite find_workspace_app, find_workspace_fresh by done.
    unfold find_workspace. simpl. by rewrite String.eqb_refl. }
  split; [exact Hact |]. split.
  - unfold previewCode, activeWorkspace. cbn [activeWorkspaceId workspaces].
    rewrite Hact. reflexivity.
  - split.
    + intros Hnd. cbn [workspaces]. rewrite fmap_app. simpl.
      apply NoDup_app. split; [done |]. split.
      * intros x Hx Hx'. apply list_elem_of_singleton in Hx'. by subst.
      * apply NoDup_singleton.
    + intros a Ha. cbn [workspaces]. rewrite find_workspace_app.
      destruct (find_workspace a (workspaces st)); [done |].
      unfold find_workspace. simpl.
      destruct (String.eqb newId a) eqn:E; [| done].
      apply String.eqb_eq in E. congruence.
Qed.

Lemma create_workspace_becomes_active_witness :
  previewCode (handleCreateWorkspace "// hi" Samples3.two_workspaces "w3" " demo ") = "// hi".
Proof.
  apply (create_workspace_becomes_active "// hi" Samples3.two_workspaces "w3" " demo ").
  - vm_compute. reflexivity.
  - apply (bool_decide_unpack _). vm_compute. exact I.
Defined.

Lemma firstn_app_firstn {A : Type} (n : nat) (a b : list A) :
  firstn n (a ++ firstn n b) = firstn n (a ++ b).
Proof.
  rewrite !firstn_app, firstn_firstn. do 2 f_equal. lia.
Qed.

(** X16. The console of the application keeps the fifty latest messages,
    the latest first: after any sequence of messages, the list is the
    first fifty of the new messages in reverse order followed by the old
    ones, and never longer than fifty. *)
Theorem console_keeps_latest_fifty (c : ConsoleState) (ls : list LogMessage) :
  (length (consoleLogs c) <= 50)%nat ->
  consoleLogs (fold_left onConsoleLog ls c) = firstn 50 (rev ls ++ consoleLogs c)
  /\ (length (consoleLogs (fold_left onConsoleLog ls c)) <= 50)%nat.
Proof.
  revert c; induction ls as [|l ls IH]; intros c Hc.
  - simpl. split; [| done]. by rewrite firstn_all2.
  - cbn [fold_left].
    destruct (IH (onConsoleLog c l)) as [IH1 IH2].
    { cbn [onConsoleLog consoleLogs]. rewrite length_firstn. lia. }
    split; [| done]. rewrite IH1. cbn [onConsoleLog consoleLogs].
    rewrite firstn_app_firstn. cbn [rev]. by rewrite <- app_assoc.
Qed.

Lemma console_keeps_latest_fifty_witness :
  consoleLogs (fold_left onConsoleLog
                 [ {| level := log; message := "a" |}; {| level := error_level; message := "b" |} ]
                 Samples3.quiet_console)
  = [ {| level := error_level; message := "b" |}; {| level := log; message := "a" |} ].
Proof.
  destruct (console_keeps_latest_fifty Samples3.quiet_console
              [ {| level := log; message := "a" |};
                {| level := error_level; message := "b" |} ]) as [H _].
  - simpl. lia.
  - exact H.
Defined.

Lemma handleMessage_agree (p : PreviewState) (e : MessageEvent) :
  consoleLogs (console p) = firstn 50 (rev (logs p)) ->
  consoleLogs (console (handleMessage p e)) = firstn 50 (rev (logs (handleMessage p e))).
Proof.
  intros H. unfold handleMessage.
  destruct (from_iframe e); simpl; [| done].
  destruct (data e) as [sent m | |]; simpl; try done.
  rewrite H, rev_app_distr. simpl.
  apply (firstn_app_firstn 50 [_] (rev (logs p))).
Qed.

(** X17. The console of the application and the log of the preview agree:
    if the former is the fifty latest entries of the latter, the latest
    first, this is still so after any sequence of message events; and
    events that do not come from the frame of the preview change nothing. *)
Theorem preview_and_console_agree (p : PreviewState) (events : list MessageEvent) :
  consoleLogs (console p) = firstn 50 (rev (logs p)) ->
  consoleLogs (console (fold_left handleMessage events p))
  = firstn 50 (rev (logs (fold_left handleMessage events p)))
  /\ fold_left handleMessage events p
     = fold_left handleMessage (List.filter from_iframe events) p.
Proof.
  revert p; induction events as [|e events IH]; intros p H; [done |].
  cbn [fold_left List.filter].
  destruct (IH (handleMessage p e) (handleMessage_agree p e H)) as [IH1 IH2].
  split; [done |]. rewrite IH2.
  destruct (from_iframe e) eqn:E; [done |].
  assert (handleMessage p e = p) as -> by (unfold handleMessage; by rewrite E).
  done.
Qed.

Lemma preview_and_console_agree_witness :
  consoleLogs (console (fold_left handleMessage Samples3.sample_events Samples3.fresh_preview))
  = [ {| level := log; message := "odd level" |}; {| level := warn; message := "slow" |} ].
Proof.
  rewrite (proj1 (preview_and_console_agree Samples3.fresh_preview Samples3.sample_events
                    eq_refl)).
  vm_compute. reflexivity.
Defined.

Lemma replace_first_prefix (name : string) :
  replace_first "ext_" "" (storageKey name) = name.
Proof. reflexivity. Qed.

Lemma storageKey_inj (a b : string) : storageKey a = storageKey b -> a = b.
Proof. unfold storageKey. simpl. by intros [= ->]. Qed.

Lemma listed_entry (localStorage : gmap string string) (kv : string * string) :
  In kv (List.filter (fun kv => Str.starts_with "ext_" (fst kv) && String.eqb (snd kv) "true")
           (map_to_list localStorage))
  <-> exists name, kv = (storageKey name, "true")
                   /\ localStorage !! storageKey name = Some "true".
Proof.
  rewrite filter_In, <- list_elem_of_In. destruct kv as [k v]. cbn [fst snd]. split.
  - intros [Hin [Hk Hv]%andb_true_iff].
    apply starts_with_inv in Hk as [r ->]. apply String.eqb_eq in Hv as ->.
    exists r. split; [done |]. by apply elem_of_map_to_list in Hin.
  - intros (name & [= -> ->] & Hl). split; [by apply elem_of_map_to_list |].
    unfold storageKey. by rewrite starts_with_append.
Qed.

Lemma installed_iff (localStorage : gmap string string) (name : string) :
  name ∈ getInstalledExtensions localStorage
  <-> localStorage !! storageKey name = Some "true".
Proof.
  unfold getInstalledExtensions. rewrite list_elem_of_In, in_map_iff. split.
  - intros (kv & Hf & (r & -> & Hl)%listed_entry).
    simpl in Hf. rewrite replace_first_prefix in Hf. by subst.
  - intros Hl. exists (storageKey name, "true"). split; [apply replace_first_prefix |].
    apply listed_entry. by exists name.
Qed.

Lemma NoDup_listed (l : list (string * string)) :
  NoDup (fst <$> l) ->
  (forall kv, In kv l -> exists name, fst kv = storageKey name) ->
  NoDup (List.map (fun kv => replace_first "ext_" "" (fst kv)) l).
Proof.
  induction l as [|[k v] l IH]; simpl; [constructor |].
  intros [Hk Hl]%NoDup_cons Hall. apply NoDup_cons. split.
  - rewrite list_elem_of_In, in_map_iff. intros ([k' v'] & Hf & Hin). simpl in Hf.
    destruct (Hall (k, v)) as [n Hn]; [by left |].
    destruct (Hall (k', v')) as [n' Hn']; [by right |].
    simpl in Hn, Hn'. subst k k'. rewrite !replace_first_prefix in Hf. subst n'.
    apply Hk. apply list_elem_of_fmap. exists (storageKey n, v'). split; [done |].
    by apply list_elem_of_In.
  - apply IH; [done |]. intros kv Hin. apply Hall. by right.
Qed.

Lemma NoDup_fst_filter {A B : Type} (p : A * B -> bool) (l : list (A * B)) :
  NoDup (fst <$> l) -> NoDup (fst <$> List.filter p l).
Proof.
  induction l as [|x l IH]; simpl; [done |].
  intros [Hx Hl]%NoDup_cons. destruct (p x); simpl; [| by apply IH].
  apply NoDup_cons. split; [| by apply IH].
  intros (y & Hy & Hin)%list_elem_of_fmap. apply Hx. apply list_elem_of_fmap.
  exists y. split; [done |].
  apply list_elem_of_In. apply list_elem_of_In in Hin. by apply filter_In in Hin as [? _].
Qed.

(** X18. The list of installed extensions holds exactly the names whose
    storage entry, under the key made of [ext_] and the name, has the value
    [true], and holds no name twice. *)
Theorem installed_extensions_are_the_true_entries (localStorage : gmap string string) :
  (forall name, name ∈ getInstalledExtensions localStorage
                <-> localStorage !! storageKey name = Some "true")
  /\ NoDup (getInstalledExtensions localStorage).
Proof.
  split; [apply installed_iff |].
  unfold getInstalledExtensions. apply NoDup_listed.
  - apply NoDup_fst_filter, NoDup_fst_map_to_list.
  - intros kv (name & -> & _)%listed_entry. by exists name.
Qed.

(** X19. Installing an extension adds its name to the list of installed
    extensions and uninstalling removes it; neither changes whether another
    extension is listed. *)
Theorem install_and_uninstall (localStorage : gmap string string) (name other : string) :
  (other ∈ getInstalledExtensions (handleInstall localStorage name)
   <-> other = name \/ other ∈ getInstalledExtensions localStorage)
  /\ (other ∈ getInstalledExtensions (handleUninstall localStorage name)
      <-> other <> name /\ other ∈ getInstalledExtensions localStorage).
Proof.
  rewrite !installed_iff. unfold handleInstall, handleUninstall.
  destruct (decide (other = name)) as [-> | Hne].
  - rewrite lookup_insert_eq, lookup_delete_eq. split.
    + split; [by left | done].
    + split; [done | by intros [? _]].
  - assert (storageKey name <> storageKey other) by (by intros ?%storageKey_inj).
    rewrite lookup_insert_ne, lookup_delete_ne by done. split.
    + split; [by right | by intros [? | ?]].
    + split; [by split | by intros [_ ?]].
Qed.
End ShellFacts.

(** ** The element picker *)
Module PickerFacts.
Import Picker Spec3.

Lemma initial_consistent : consistent initial.
Proof. by repeat split. Qed.

Ltac outline_cases Hox Hd :=
  repeat case_decide; subst; rewrite ?Hox; repeat case_bool_decide; simplify_eq;
  try done; try (exfalso; by eapply Hd).

Lemma step_consistent (s : State) (e : Event) : consistent s -> consistent (step s e).
Proof.
  destruct s as [a t p o ps]. intros (Ho & Ha & Hd). cbn in Ho, Ha, Hd.
  assert (Hox : forall x, o x = if bool_decide (p = Some x) then permanentHighlightStyle
                                else if bool_decide (t = Some x) then transientHighlightStyle
                                else "") by exact Ho.
  clear Ho.
  destruct e as [[|] | | target | | target]; cbn [step negb selectorActive
    transientHighlightedElement permanentHighlightedElement outline posted clearHighlights].
  - split; [| split]; cbn; [exact Hox | done | exact Hd].
  - split; [| split]; cbn; [| done | done].
    intros x. unfold tracked_outline, clear_outline_of, set_outline. cbn.
    rewrite !bool_decide_eq_false_2 by done.
    destruct p as [pe |], t as [te |]; outline_cases Hox Hd.
  - split; [| split]; cbn; [| exact Ha | done].
    intros x. unfold tracked_outline, clear_outline_of, set_outline. cbn.
    rewrite (bool_decide_eq_false_2 (None = Some x)) by done.
    destruct p as [pe |]; outline_cases Hox Hd.
  - destruct a; cbn [negb orb]; [| by repeat split].
    case_bool_decide as Hp; [by repeat split |].
    case_bool_decide as Ht; [by repeat split |].
    split; [| split]; cbn; [| done |].
    + intros x. unfold tracked_outline, clear_outline_of, set_outline. cbn.
      destruct t as [te |]; outline_cases Hox Hd.
    + intros x [= <-]. congruence.
  - destruct t as [te |]; [| by repeat split].
    destruct a; cbn [negb]; [| by repeat split].
    split; [| split]; cbn; [| done | done].
    intros x. unfold tracked_outline, set_outline. cbn.
    rewrite (bool_decide_eq_false_2 (None = Some x)) by done.
    outline_cases Hox Hd.
  - destruct a; cbn [negb]; [| by repeat split].
    split; [| split]; cbn; [| done | done].
    intros x. unfold tracked_outline, clear_outline_of, set_outline. cbn.
    rewrite (bool_decide_eq_false_2 (None = Some x)) by done.
    destruct p as [pe |], t as [te |]; outline_cases Hox Hd.
Qed.

Lemma run_snoc (s : State) (events : list Event) (e : Event) :
  run s (events ++ [e]) = step (run s events) e.
Proof. unfold run. by rewrite fold_left_app. Qed.

(** X20. In every state that the element picker reaches from its initial
    state, the only outlined elements are the ones it tracks: the selected
    element has the selection outline, the element under the pointer the
    hover outline, every other element none; nothing is highlighted in
    passing while the picker is off, and the hovered element is never the
    selected one. *)
Theorem highlights_are_tracked (events : list Event) :
  consistent (run initial events).
Proof.
  induction events as [|e events IH] using rev_ind.
  - exact initial_consistent.
  - rewrite run_snoc. by apply step_consistent.
Qed.

Lemma step_posted (s : State) (e : Event) :
  (length (posted (step s e)) + b2n (selectorActive (step s e))
   <= length (posted s) + b2n (selectorActive s) + b2n (arming e))%nat.
Proof.
  destruct s as [a t p o ps].
  destruct e as [[|] | | target | | target], a, t; cbn;
    repeat case_bool_decide; cbn; lia.
Qed.

Lemma run_posted (events : list Event) (s : State) :
  (length (posted (run s events)) + b2n (selectorActive (run s events))
   <= length (posted s) + b2n (selectorActive s) + length (List.filter arming events))%nat.
Proof.
  revert s; induction events as [|e events IH]; intros s; [simpl; lia |].
  change (run s (e :: events)) with (run (step s e) events).
  specialize (IH (step s e)). pose proof (step_posted s e) as Hs.
  cbn [List.filter]. destruct (arming e); cbn [length b2n] in *; lia.
Qed.

(** X21. The element picker reports at most one element each time the host
    switches it on: the number of [element-selected] messages it has posted
    never exceeds the number of [toggle-selector] messages that enabled
    it. *)
Theorem one_selection_per_arming (events : list Event) :
  (length (posted (run initial events)) <= length (List.filter arming events))%nat.
Proof.
  pose proof (run_posted events initial) as H. cbn [initial posted selectorActive b2n length] in H.
  lia.
Qed.

End PickerFacts.

(** ** The history given to the model *)
Module HistoryFacts.
Import App History StrFacts.

Lemma render_truthy (task : AITask) : Str.truthy (render task) = true.
Proof. reflexivity. Qed.

Lemma join_with_truthy (sep x : string) (l : list string) :
  Str.truthy x = true -> Str.truthy (join_with sep (x :: l)) = true.
Proof.
  destruct x as [|c x]; [done |]. intros _. by destruct l.
Qed.

Lemma filter_all {A : Type} (p : A -> bool) (l : list A) :
  (forall x, In x l -> p x = true) -> List.filter p l = l.
Proof.
  induction l as [|x l IH]; simpl; [done |].
  intros H. rewrite (H x) by (by left). f_equal. apply IH. intros y Hy. apply H. by right.
Qed.

Lemma In_firstn {A : Type} (n : nat) (l : list A) (x : A) :
  In x (firstn n l) -> In x l.
Proof.
  revert l; induction n as [|n IH]; intros [|y l]; simpl; try done.
  intros [-> | H]; [by left | right; by apply IH].
Qed.

(** X22. The history is the sentence about the first message exactly when
    no task has a prompt together with a response or an error; otherwise it
    is the summary, so the second test for an empty summary never
    applies. *)
Theorem first_message_iff_no_relevant_task (tasks : list AITask) :
  serializeTaskHistory tasks = FIRST_MESSAGE <-> List.filter relevant tasks = [].
Proof.
  unfold serializeTaskHistory.
  destruct (List.filter relevant tasks) as [|t l] eqn:E; [done |].
  split; [| done].
  cbn [firstn rev]. rewrite length_app. cbn [length].
  replace (length (rev (firstn 9 l)) + 1 =? 0)%nat with false
    by (symmetry; apply Nat.eqb_neq; lia).
  destruct (rev (firstn 9 l) ++ [t]) as [|r rs] eqn:Er; [by destruct (rev (firstn 9 l)) |].
  cbn [List.map]. rewrite join_with_truthy by apply render_truthy.
  cbn [negb]. unfold FIRST_MESSAGE. simpl. discriminate.
Qed.

(** X23. The history depends only on the first ten relevant tasks of the
    list: tasks without a prompt or without a response or an error, and
    every relevant task after the tenth, have no influence. *)
Theorem history_window (tasks : list AITask) :
  serializeTaskHistory tasks
  = serializeTaskHistory (firstn 10 (List.filter relevant tasks)).
Proof.
  unfold serializeTaskHistory.
  rewrite (filter_all relevant (firstn 10 (List.filter relevant tasks))).
  - by rewrite firstn_firstn.
  - intros x Hx%In_firstn. by apply filter_In in Hx as [_ ?].
Qed.

(** X24. A task enters the history only once it has a response or an
    error: a task with neither, such as a task that has just been created
    and is still running, can be added anywhere in the list without
    changing the history. *)
Theorem unanswered_task_is_not_history (before after : list AITask) (task : AITask) :
  assistantResponse task = None -> task_error task = None ->
  serializeTaskHistory (before ++ task :: after) = serializeTaskHistory (before ++ after).
Proof.
  intros Hr He. unfold serializeTaskHistory.
  rewrite !List.filter_app. cbn [List.filter].
  replace (relevant task) with false; [done |].
  unfold relevant. rewrite Hr, He. cbn.
  by rewrite andb_false_r.
Qed.

Lemma unanswered_task_is_not_history_witness :
  serializeTaskHistory (tasks (add_task (new_task "B" "Add a button" user)
                                 Samples.pending_workspace))
  = serializeTaskHistory (tasks Samples.pending_workspace).
Proof.
  apply (unanswered_task_is_not_history [] (tasks Samples.pending_workspace)
           (new_task "B" "Add a button" user)); reflexivity.
Defined.

End HistoryFacts.

(** ** Approval, streaming and editing *)
Module AppMore.
Import Str Spec Spec2 Samples StrFacts Framer App Editor FS FSFacts.

Lemma in_workspace_twice (active : string) (f g : Workspace -> Workspace)
    (l : list Workspace) :
  (forall ws, ws_id (g ws) = ws_id ws) ->
  in_workspace active f (in_workspace active g l)
  = in_workspace active (fun ws => f (g ws)) l.
Proof.
  intros Hid. unfold in_workspace. rewrite <- list_fmap_compose.
  apply list_fmap_ext. intros _ ws _. simpl.
  destruct (String.eqb (ws_id ws) active) eqn:E; [by rewrite Hid, E | by rewrite E].
Qed.

Lemma in_workspace_ext (active : string) (f g : Workspace -> Workspace)
    (l : list Workspace) :
  (forall ws, f ws = g ws) -> in_workspace active f l = in_workspace active g l.
Proof.
  intros H. unfold in_workspace. apply list_fmap_ext. intros _ ws _.
  by rewrite H.
Qed.

Lemma approve_in_id (taskId : string) (ws : Workspace) :
  ws_id (approve_in taskId ws) = ws_id ws.
Proof.
  unfold approve_in. destruct (find_task taskId (tasks ws)) as [task |]; [| done].
  destruct (negb _); [done |].
  by destruct (assistantResponse task ≫= response_operations).
Qed.

Lemma with_status_id (s : TaskStatus) (t : AITask) : id (with_status s t) = id t.
Proof. reflexivity. Qed.

Lemma approve_in_twice (taskId : string) (ws : Workspace) :
  approve_in taskId (approve_in taskId ws) = approve_in taskId ws.
Proof.
  unfold approve_in at 2.
  destruct (find_task taskId (tasks ws)) as [task |] eqn:Ef.
  - destruct (negb (bool_decide (status task = pending_confirmation))) eqn:Es.
    + unfold approve_in. by rewrite Ef, Es.
    + destruct (assistantResponse task ≫= response_operations) as [ops |] eqn:Eo.
      * unfold approve_in. cbn [tasks in_task].
        rewrite (AppFacts.find_task_in_task taskId (with_status completed))
          by apply with_status_id.
        rewrite Ef. cbn [fmap option_fmap option_map with_status status].
        rewrite bool_decide_eq_false_2 by done. by rewrite Es, Eo.
      * unfold approve_in. by rewrite Ef, Es, Eo.
  - unfold approve_in. by rewrite Ef.
Qed.

Lemma approve_in_rejected (taskId : string) (ws : Workspace) :
  approve_in taskId (in_task taskId (with_status completed) ws)
  = in_task taskId (with_status completed) ws.
Proof.
  unfold approve_in. cbn [tasks in_task].
  rewrite (AppFacts.find_task_in_task taskId (with_status completed))
    by apply with_status_id.
  destruct (find_task taskId (tasks ws)) as [task |]; [| done].
  cbn [fmap option_fmap option_map with_status status].
  rewrite bool_decide_eq_false_2 by done. reflexivity.
Qed.

(** X25. A task is approved at most once: approving again a task that was
    approved, or approving a task that was rejected, changes nothing, so
    the operations of a task are never applied twice and never applied
    after a rejection. *)
Theorem approval_happens_once (st : AppState) (taskId : string) :
  handleApproveTask (handleApproveTask st taskId) taskId = handleApproveTask st taskId
  /\ handleApproveTask (handleRejectTask st taskId) taskId = handleRejectTask st taskId.
Proof.
  unfold handleApproveTask, handleRejectTask.
  destruct (truthy_id (activeWorkspaceId st)) as [active |] eqn:Ea.
  - cbn [set_workspaces activeWorkspaceId]. rewrite Ea.
    unfold set_workspaces. cbn [workspaces activeWorkspaceId workspaceUiStates].
    split; f_equal.
    + rewrite in_workspace_twice by apply approve_in_id.
      apply in_workspace_ext, approve_in_twice.
    + rewrite in_workspace_twice by done.
      apply in_workspace_ext, approve_in_rejected.
  - by rewrite Ea.
Qed.

Lemma starts_with_mono (p s more : string) :
  starts_with p s = true -> starts_with p (s +:+ more) = true.
Proof.
  intros [r ->]%starts_with_inv. rewrite append_assoc. apply starts_with_append.
Qed.

Lemma starts_with_short (p s more : string) :
  starts_with p s = false -> starts_with p (s +:+ more) = true ->
  (String.length s < String.length p)%nat.
Proof.
  revert s; induction p as [|c p IH]; intros [|d s]; simpl; try done; try lia.
  intros H1 [Hc Hs]%andb_true_iff. rewrite Hc in H1. simpl in H1.
  specialize (IH s H1 Hs). lia.
Qed.

Lemma indexOf_from_length (sep s : string) (i : Z) :
  indexOf_from sep s i <> -1 -> (String.length sep <= String.length s)%nat.
Proof.
  revert i; induction s as [|c s IH]; intros i.
  - simpl. destruct sep; simpl; [lia | done].
  - cbn [indexOf_from]. destruct (starts_with sep (String c s)) eqn:E.
    + intros _. apply starts_with_inv in E as [r E]. rewrite E, length_append. lia.
    + intros H%IH. simpl. lia.
Qed.

Lemma indexOf_from_stable (sep s more : string) (i : Z) :
  indexOf_from sep s i <> -1 ->
  indexOf_from sep (s +:+ more) i = indexOf_from sep s i.
Proof.
  revert i; induction s as [|c s IH]; intros i.
  - simpl. destruct sep; simpl; [| done]. intros _. by destruct more.
  - cbn [indexOf_from String.append]. change (String c (s +:+ more)) with (String c s +:+ more).
    destruct (starts_with sep (String c s)) eqn:E.
    + intros _. by rewrite starts_with_mono.
    + intros H. destruct (starts_with sep (String c s +:+ more)) eqn:E'.
      * pose proof (starts_with_short _ _ _ E E') as Hs.
        apply indexOf_from_length in H. simpl in Hs. lia.
      * cbn [String.append]. by apply IH.
Qed.

Lemma take_append_le (n : nat) (a b : string) :
  (n <= String.length a)%nat -> take n (a +:+ b) = take n a.
Proof.
  revert a; induction n as [|n IH]; intros [|c a] H; simpl in *; try done; try lia.
  rewrite IH; [done | lia].
Qed.

Lemma indexOf_bound (s sep : string) :
  indexOf s sep <> -1 ->
  exists k : nat, indexOf s sep = Z.of_nat k /\ (k <= String.length s)%nat.
Proof.
  unfold indexOf. intros H.
  destruct (indexOf_from_spec sep s 0) as [[H1 _] | (k & Hk & Hle & _)]; [lia | done |].
  exists k. split; [lia | done].
Qed.

Lemma substring_to_stable (s more sep : string) :
  indexOf s sep <> -1 ->
  substring_to (s +:+ more) (indexOf s sep) = substring_to s (indexOf s sep)
  /\ indexOf (s +:+ more) sep = indexOf s sep.
Proof.
  intros H. split; [| by apply indexOf_from_stable].
  destruct (indexOf_bound s sep H) as (k & -> & Hk).
  unfold substring_to. rewrite Nat2Z.id. by apply take_append_le.
Qed.

(** X26. The message shown while the response streams settles once a marker
    has arrived: after the blueprint marker no further text changes it, and
    after the operations marker no further text changes it unless that text
    brings the blueprint marker. *)
Theorem shown_text_settles (text more : string) :
  indexOf text blueprintSeparator <> -1
  \/ (indexOf text opsSeparator <> -1
      /\ indexOf (text +:+ more) blueprintSeparator = -1) ->
  conversationalPart (text +:+ more) = conversationalPart text.
Proof.
  unfold conversationalPart, separatorIdx. intros [Hb | [Ho Hnb]].
  - destruct (substring_to_stable text more blueprintSeparator Hb) as [Hs He].
    rewrite He. apply Z.eqb_neq in Hb. rewrite Hb. cbn [negb]. rewrite Hb. exact Hs.
  - assert (Hb : indexOf text blueprintSeparator = -1).
    { destruct (decide (indexOf text blueprintSeparator = -1)) as [| Hn]; [done |].
      destruct (substring_to_stable text more blueprintSeparator Hn) as [_ He].
      congruence. }
    rewrite Hnb, Hb. rewrite Z.eqb_refl. cbn [negb].
    destruct (substring_to_stable text more opsSeparator Ho) as [Hs He].
    rewrite He. apply Z.eqb_neq in Ho. rewrite Ho. exact Hs.
Qed.

Lemma shown_text_settles_witness :
  conversationalPart ("Done. ---JSON_OPERATIONS--- {" +:+ "}") = "Done. ".
Proof.
  rewrite (shown_text_settles "Done. ---JSON_OPERATIONS--- {" "}").
  - vm_compute. reflexivity.
  - right. split; vm_compute; [discriminate | reflexivity].
Defined.

Section Final.

Variable JSON_parse : string -> Completion json.
Variable as_FileOperations : json -> list FileOperation.

(** X27. The message of a finished round is the message shown last while
    the response streamed, trimmed when a marker was found and as it is
    when none was. *)
Theorem final_content_is_streamed_content (text : string) (isAutoPilot : bool)
    (o : Outcome) :
  decode JSON_parse as_FileOperations text isAutoPilot = Normal o ->
  finalConversationalPart o
  = match payload_kind text with
    | Some _ => trim (conversationalPart text)
    | None => conversationalPart text
    end.
Proof.
  unfold decode, payload_kind, conversationalPart, separatorIdx.
  destruct (indexOf text blueprintSeparator =? -1) eqn:Eb; cbn [negb].
  - destruct (indexOf text opsSeparator =? -1) eqn:Eo; cbn [negb].
    + by intros [= <-].
    + destruct (parse_operations _ _ _); [| done]. by intros [= <-].
  - rewrite Eb. cbn [negb]. destruct (JSON_parse _); [| done]. by intros [= <-].
Qed.

End Final.

Lemma final_content_is_streamed_content_witness :
  exists o,
    decode JSON_parse_samples read_FileOperations "Done. ---JSON_OPERATIONS--- {}" false
    = Normal o
    /\ finalConversationalPart o = "Done.".
Proof.
  assert (Hd : decode JSON_parse_samples read_FileOperations
                 "Done. ---JSON_OPERATIONS--- {}" false
               = Normal {| finalConversationalPart := "Done."; fileOps := [];
                           blueprint := None; final_status := pending_confirmation |})
    by (vm_compute; reflexivity).
  eexists. split; [exact Hd |].
  etransitivity;
    [exact (final_content_is_streamed_content JSON_parse_samples read_FileOperations
              "Done. ---JSON_OPERATIONS--- {}" false _ Hd) |].
  vm_compute. reflexivity.
Defined.

Lemma find_after_update (tree : FileSystemNode) (file newContent : string) :
  (forall c, findNodeByPath file tree = Some (FileNode c) ->
     findNodeByPath file (updateFileContent tree file newContent)
     = Some (FileNode newContent))
  /\ (forall q, unrelated (path_parts file) (path_parts q) ->
        findNodeByPath q (updateFileContent tree file newContent)
        = findNodeByPath q tree).
Proof.
  destruct (FSMore.updateFileContent_cases tree file newContent)
    as [(init & k & ch & c & E & Hn & Hk & ->) | [(E & [c ->] & ->) | [Hno ->]]];
    unfold findNodeByPath in *.
  - split.
    + intros _ _. rewrite E. by eapply node_at_set_child.
    + intros q Hu. apply FSMore.set_child_frame. by rewrite <- E.
  - rewrite E. split; [done |].
    intros q [Hu _]. exfalso. apply Hu, prefix_nil.
  - split; [| done]. intros c Hc. by destruct (Hno c).
Qed.

Lemma with_fileSystem_id (f : FileSystemNode -> FileSystemNode) (ws : Workspace) :
  ws_id (with_fileSystem f ws) = ws_id ws.
Proof. reflexivity. Qed.

Lemma activeWorkspace_edit (st : AppState) (f : FileSystemNode -> FileSystemNode)
    (active : string) :
  truthy_id (activeWorkspaceId st) = Some active ->
  activeWorkspace (set_workspaces (in_workspace active (with_fileSystem f)) st)
  = with_fileSystem f <$> activeWorkspace st.
Proof.
  intros Ha%AppFacts.truthy_id_inv. unfold activeWorkspace.
  cbn [set_workspaces activeWorkspaceId workspaces]. rewrite Ha.
  apply AppFacts.find_workspace_in_workspace, with_fileSystem_id.
Qed.

(** X28. The preview follows the editor: after [handleFileContentChange] on
    [src/App.tsx], where the active workspace has that file, the preview
    code is the new content; and a change to a file at an unrelated path
    leaves the preview code as it was. *)
Theorem preview_follows_editor (st : AppState) (file content : string) :
  (forall active w old,
     truthy_id (activeWorkspaceId st) = Some active ->
     activeWorkspace st = Some w ->
     findNodeByPath "src/App.tsx" (fileSystem w) = Some (FileNode old) ->
     previewCode (handleFileContentChange st "src/App.tsx" content) = content)
  /\ (unrelated (path_parts file) (path_parts "src/App.tsx") ->
      previewCode (handleFileContentChange st file content) = previewCode st).
Proof.
  split.
  - intros active w old Ha Hw Hf. unfold handleFileContentChange, previewCode.
    rewrite Ha, (activeWorkspace_edit st _ active Ha), Hw.
    cbn [fmap option_fmap option_map with_fileSystem fileSystem].
    by rewrite (proj1 (find_after_update (fileSystem w) "src/App.tsx" content) old Hf).
  - intros Hu. unfold handleFileContentChange.
    destruct (truthy_id (activeWorkspaceId st)) as [active |] eqn:Ha; [| done].
    unfold previewCode. rewrite (activeWorkspace_edit st _ active Ha).
    destruct (activeWorkspace st) as [w |]; [| done].
    cbn [fmap option_fmap option_map with_fileSystem fileSystem].
    by rewrite (proj2 (find_after_update (fileSystem w) file content) _ Hu).
Qed.

Lemma preview_follows_editor_witness :
  previewCode (handleFileContentChange Samples3.edited_state "src/App.tsx" "// new") = "// new"
  /\ previewCode (handleFileContentChange Samples3.edited_state "README.md" "text") = "// old".
Proof.
  destruct (preview_follows_editor Samples3.edited_state "README.md" "text") as [_ H2].
  destruct (preview_follows_editor Samples3.edited_state "src/App.tsx" "// new") as [H1 _].
  split.
  - eapply H1; vm_compute; reflexivity.
  - rewrite H2; [vm_compute; reflexivity |].
    split; intros H; apply (bool_decide_pack _) in H; vm_compute in H; exact H.
Defined.

End AppMore.
